(** * ConfluxWeb: the schema parser ([parse], [Parser], [ArrayParser],
      [ObjectParser]) and the [Hex] formatter of conflux-web-utils/src/type.js

    A shallow embedding of the JavaScript sources.

    - Values are the inductive [val].  Arrays and plain objects are cells
      of a heap and are denoted by references, so that "a new array", "a
      new object" and "the input is not written to" can be stated.  An
      array is the list of its entries (no holes).  A plain object is the
      finite map of its own properties, all of them enumerable data
      properties with string keys (their order is not kept), together
      with its prototype: Object.prototype, as for an object literal or a
      result of JSON.parse, or none, as for Object.create(null).  A string
      is a sequence of code units below 256.
    - A computation runs in a world (the heap and a call log), returns or
      throws, and leaves a world.
    - A function supplied by the caller (a leaf transform, a predicate, a
      fallback) is pure: it returns a value or throws, and it looks at its
      argument only, not into the heap.  Every invocation of one is put on
      the call log, so that "is called once" and "is never called" can be
      stated.
    - lodash, bignumber.js and the host's conversions of numbers to
      strings are not part of the repository: the functions of lodash that
      the sources call are modelled after its documentation and, for
      lodash.mapValues and lodash.defaults, after their code in lodash
      4.17.21; the conversions are parameters. *)

From Stdlib Require Import NArith Ascii String List Bool Lia PrimFloat.
From Stdlib Require Strings.Byte.
From stdpp Require Import base option list gmap strings.
Import ListNotations.

Local Open Scope string_scope.
Local Open Scope list_scope.

(** ** JavaScript values *)

Inductive val : Type :=
  | VUndefined
  | VNull
  | VBool (b : bool)
  | VNumber (n : float)            (* an IEEE-754 double, as in JavaScript *)
  | VString (s : string)           (* code units below 256 *)
  | VBuffer (bytes : list Byte.byte)    (* a Node.js Buffer, read only here *)
  | VBigNumber (repr : string)     (* a bignumber.js instance, opaque *)
  | VDate (time : float)           (* a Date, by its time value *)
  | VBuiltin (name : string)       (* what Object.prototype answers for that name *)
  | VRef (l : nat).                (* an array, a plain object or another object,
                                      by the index of its heap cell *)

(** [value === undefined] *)
Definition is_undefined (v : val) : bool :=
  match v with VUndefined => true | _ => false end.

(** What a [throw] carries.  The sources throw [new Error(message)]; the
    constructors name the throwing site, the message is in the comment. *)
Inductive error : Type :=
  | MissingRequiredValue           (* `value is required, got ${value}` *)
  | TypeMismatch                   (* `expected a array, got ...`, `expected a plain object, got ...` *)
  | ValidationFailed               (* `do not match validator ${func}` *)
  | UnsupportedSchemaType (typeof : string)   (* `unknown schema type "${typeof schema}"` *)
  | NotHexString (shown : string)  (* `"${value}" do not match hex string` *)
  | TypeError (message : string)   (* raised by the language itself *)
  | LeafError (message : string).  (* anything a caller-supplied function throws *)

Inductive result (A : Type) : Type :=
  | Ok (a : A)
  | Throw (e : error).
Arguments Ok {A} a.
Arguments Throw {A} e.

(** ** type.js: Hex *)

(** [0-9] *)
Definition is_digit (c : ascii) : bool :=
  let n := N_of_ascii c in ((48 <=? n) && (n <=? 57))%N.

(** [a-f] *)
Definition is_lower_af (c : ascii) : bool :=
  let n := N_of_ascii c in ((97 <=? n) && (n <=? 102))%N.

(** [A-F] *)
Definition is_upper_af (c : ascii) : bool :=
  let n := N_of_ascii c in ((65 <=? n) && (n <=? 70))%N.

(** The character class [0-9a-f] of the regular expression. *)
Definition is_lower_hex (c : ascii) : bool := is_digit c || is_lower_af c.

(** ([0-9a-f][0-9a-f])*$ *)
Fixpoint hex_pairs (s : string) : bool :=
  match s with
  | EmptyString => true
  | String c1 (String c2 rest) => is_lower_hex c1 && is_lower_hex c2 && hex_pairs rest
  | String _ EmptyString => false
  end.

(** /^0x([0-9a-f][0-9a-f])*$/.test(s); without the m flag, $ is the end of
    the input. *)
Definition hex_regex (s : string) : bool :=
  match s with
  | String "0" (String "x" rest) => hex_pairs rest
  | _ => false
  end.

(** String.prototype.toLowerCase on code units below 256: A-Z, and the
    Latin-1 capitals U+00C0..U+00DE but the multiplication sign U+00D7. *)
Definition lower_char (c : ascii) : ascii :=
  let n := N_of_ascii c in
  if ((65 <=? n) && (n <=? 90))%N then ascii_of_N (n + 32)
  else if ((192 <=? n) && (n <=? 222) && negb (n =? 215))%N then ascii_of_N (n + 32)
  else c.

Fixpoint toLowerCase (s : string) : string :=
  match s with
  | EmptyString => EmptyString
  | String c rest => String (lower_char c) (toLowerCase rest)
  end.

(** string.startsWith('0x') *)
Definition startsWith_0x (s : string) : bool :=
  match s with
  | String "0" (String "x" _) => true
  | _ => false
  end.

(** string.substring(2) *)
Definition substring2 (s : string) : string :=
  match s with
  | String _ (String _ rest) => rest
  | _ => EmptyString
  end.

(** The value of a hexadecimal digit, either case (what Buffer.from accepts). *)
Definition hex_value (c : ascii) : option N :=
  let n := N_of_ascii c in
  if is_digit c then Some (n - 48)%N
  else if is_lower_af c then Some (n - 87)%N
  else if is_upper_af c then Some (n - 55)%N
  else None.

(** The lower-case digit of a value below 16. *)
Definition hex_char (n : N) : ascii :=
  if (n <? 10)%N then ascii_of_N (n + 48) else ascii_of_N (n + 87).

Definition byte_of_nibbles (hi lo : N) : Byte.byte :=
  match Byte.of_N (16 * hi + lo) with
  | Some b => b
  | None => Byte.x00
  end.

(** Buffer.from(s, 'hex'): two digits make a byte; decoding ends at the
    first pair that is not two hexadecimal digits. *)
Fixpoint hex_decode (s : string) : list Byte.byte :=
  match s with
  | String c1 (String c2 rest) =>
      match hex_value c1, hex_value c2 with
      | Some hi, Some lo => byte_of_nibbles hi lo :: hex_decode rest
      | _, _ => []
      end
  | _ => []
  end.

(** buffer.toString('hex'): two lower-case digits per byte. *)
Fixpoint hex_encode (bytes : list Byte.byte) : string :=
  match bytes with
  | [] => EmptyString
  | b :: rest =>
      let n := Byte.to_N b in
      String (hex_char (n / 16)) (String (hex_char (n mod 16)) (hex_encode rest))
  end.

Section HexFormatter.

(** Conversions of the host language and of bignumber.js that the
    source calls and that are not part of this repository. *)
Variable Number_toString16 : float -> string.      (* number.toString(16) *)
Variable BigNumber_toString16 : string -> string.  (* bigNumber.toString(16) *)
Variable ToString : val -> string.               (* `${value}` of any other value *)

(** The argument of RegExp.prototype.test is converted to a string. *)
Definition test_string (v : val) : string :=
  match v with
  | VString s => s
  | _ => ToString v
  end.

(** Hex.isHex *)
Definition isHex (hex : val) : bool := hex_regex (test_string hex).

(** The branch of [Hex] for a string, lines 47-57. *)
Definition Hex_of_string (value : string) : result string :=
  if isHex (VString value) then Ok value
  else
    let str := toLowerCase value in
    let str := if startsWith_0x str then str else String.append "0x" str in
    let str :=
      if Nat.odd (String.length str) then String.append "0x0" (substring2 str) else str in
    if isHex (VString str) then Ok str else Throw (NotHexString value).

(** Hex.  Every recursive call of the source is on a string, or on the
    number of a Date, whose call is on a string. *)
Definition Hex (value : val) : result string :=
  match value with
  | VNull => Ok "0x"
  | VNumber n => Hex_of_string (Number_toString16 n)
  | VBigNumber b => Hex_of_string (BigNumber_toString16 b)
  | VString s => Hex_of_string s
  | VBuffer bytes => Ok (String.append "0x" (hex_encode bytes))
  | VDate time => Hex_of_string (Number_toString16 time)
  | _ => Hex_of_string (ToString value)
  end.

(** Hex.toBuffer.  A value that passes [isHex] and is not a string has
    no [substring] method. *)
Definition toBuffer (hex : val) : result (list Byte.byte) :=
  if negb (isHex hex) then Throw (NotHexString (test_string hex))
  else
    match hex with
    | VString s => Ok (hex_decode (substring2 s))
    | _ => Throw (TypeError "hex.substring is not a function")
    end.

End HexFormatter.

(** ** type.js: Hex.fromNumber, Hex.concat, Drip, PrivateKey, Address,
       EpochNumber, BlockHash, TxHash *)

(** What these functions throw: what [Hex] threw, or an Error of their
    own. *)
Inductive thrown : Type :=
  | Raised (e : error)                         (* thrown inside Hex *)
  | NotHexAt (index : nat) (value : val)
      (* `values[${index}] do not match hex string, got "${value}"` *)
  | DoNotMatch (type : string) (value : val).  (* `${value} do not match ${type}` *)

Inductive outcome (A : Type) : Type :=
  | Returned (a : A)
  | Thrown (t : thrown).
Arguments Returned {A} a.
Arguments Thrown {A} t.

(** EpochNumber.EARLIEST, EpochNumber.LATEST_STATE, EpochNumber.LATEST_MINED *)
Definition EARLIEST : string := "earliest".
Definition LATEST_STATE : string := "latest_state".
Definition LATEST_MINED : string := "latest_mined".

Section Formatters.

Variable Number_toString16 : float -> string.      (* number.toString(16) *)
Variable BigNumber_toString16 : string -> string.  (* bigNumber.toString(16) *)
Variable ToString : val -> string.                 (* `${value}` of any other value *)
Variable BigNumber_of : val -> string.             (* BigNumber(value) *)

(** Hex.fromNumber: lodash.isNumber holds of a number only. *)
Definition Hex_fromNumber (value : val) : result string :=
  Hex Number_toString16 BigNumber_toString16 ToString
    (match value with
     | VNumber _ => value
     | _ => VBigNumber (BigNumber_of value)
     end).

(** values.forEach((value, index) => { if (!Hex.isHex(value)) throw ... }):
    the first value that is rejected, with its index. *)
Fixpoint first_not_hex (index : nat) (values : list val) : option (nat * val) :=
  match values with
  | [] => None
  | value :: rest =>
      if negb (isHex ToString value) then Some (index, value)
      else first_not_hex (S index) rest
  end.

(** values.map(v => Hex(v).substring(2)).join('') *)
Fixpoint joined_digits (values : list val) : result string :=
  match values with
  | [] => Ok EmptyString
  | v :: rest =>
      match Hex Number_toString16 BigNumber_toString16 ToString v with
      | Throw e => Throw e
      | Ok hex =>
          match joined_digits rest with
          | Throw e => Throw e
          | Ok digits => Ok (String.append (substring2 hex) digits)
          end
      end
  end.

(** Hex.concat(...values) *)
Definition Hex_concat (values : list val) : outcome string :=
  match first_not_hex 0 values with
  | Some (index, value) => Thrown (NotHexAt index value)
  | None =>
      match joined_digits values with
      | Throw e => Thrown (Raised e)
      | Ok digits => Returned (String.append "0x" digits)
      end
  end.

(** Drip *)
Definition Drip (value : val) : result string := Hex_fromNumber value.

(** PrivateKey *)
Definition PrivateKey (value : val) : outcome string :=
  match Hex Number_toString16 BigNumber_toString16 ToString value with
  | Throw e => Thrown (Raised e)
  | Ok hex =>
      if negb (Nat.eqb (String.length hex) (2 + 64)) then Thrown (DoNotMatch "PrivateKey" value)
      else Returned hex
  end.

(** Address *)
Definition Address (value : val) : outcome string :=
  match Hex Number_toString16 BigNumber_toString16 ToString value with
  | Throw e => Thrown (Raised e)
  | Ok hex =>
      if negb (Nat.eqb (String.length hex) (2 + 40)) then Thrown (DoNotMatch "Address" value)
      else Returned hex
  end.

(** EpochNumber.  [includes] compares without conversion: only a string
    is one of the three names. *)
Definition EpochNumber (value : val) : result string :=
  let value :=
    match value with
    | VString s => VString (toLowerCase s)
    | _ => value
    end in
  match value with
  | VString s =>
      if existsb (String.eqb s) [EARLIEST; LATEST_STATE; LATEST_MINED] then Ok s
      else Hex_fromNumber value
  | _ => Hex_fromNumber value
  end.

(** BlockHash *)
Definition BlockHash (value : val) : outcome string :=
  match Hex Number_toString16 BigNumber_toString16 ToString value with
  | Throw e => Thrown (Raised e)
  | Ok str =>
      if negb (Nat.eqb (String.length str) (2 + 64)) then Thrown (DoNotMatch "BlockHash" value)
      else Returned str
  end.

(** TxHash *)
Definition TxHash (value : val) : outcome string :=
  match Hex Number_toString16 BigNumber_toString16 ToString value with
  | Throw e => Thrown (Raised e)
  | Ok str =>
      if negb (Nat.eqb (String.length str) (2 + 64)) then Thrown (DoNotMatch "TxHash" value)
      else Returned str
  end.

End Formatters.

(** The vocabulary of the statements about [Hex] on strings. *)

(** Every character of [s] is of the class [p]. *)
Fixpoint every (p : ascii -> bool) (s : string) : bool :=
  match s with
  | EmptyString => true
  | String c rest => p c && every p rest
  end.

(** [s] without a leading 0x. *)
Definition strip_0x (s : string) : string :=
  if startsWith_0x s then substring2 s else s.

(** [s] with a 0 in front when its length is odd. *)
Definition pad_even (s : string) : string :=
  if Nat.odd (String.length s) then String "0" s else s.

(** The strings of a list, one after the other. *)
Fixpoint join (parts : list string) : string :=
  match parts with
  | [] => EmptyString
  | part :: rest => String.append part (join rest)
  end.

(** ** The heap, the call log and the monad of effects *)

Inductive cell : Type :=
  | Arr (items : list val)             (* Array.isArray *)
  | Obj (props : gmap string val)      (* lodash.isPlainObject: the own enumerable properties
                                          of an object that inherits from Object.prototype *)
  | Bare (props : gmap string val)     (* lodash.isPlainObject as well: those of an object
                                          without a prototype, made by Object.create(null) *)
  | Exotic (class : string).             (* any other object *)

(** A reference is the index of its cell in the heap; allocation puts a
    cell at the end.  The log lists the invocations of caller-supplied functions,
    oldest first, each with the function's name and its argument. *)
Record world : Type := mkWorld {
  heap : list cell;
  calls : list (string * val)
}.

(** A computation runs in a world, returns or throws, and leaves a world:
    what it did before a [throw] stays done. *)
Definition M (A : Type) : Type := world -> result A * world.

Definition ret {A : Type} (a : A) : M A := fun w => (Ok a, w).

Definition throw {A : Type} (e : error) : M A := fun w => (Throw e, w).

Definition bind {A B : Type} (m : M A) (k : A -> M B) : M B :=
  fun w =>
    match m w with
    | (Ok a, w') => k a w'
    | (Throw e, w') => (Throw e, w')
    end.

(** try { m } catch (e) { handler } *)
Definition try_catch {A : Type} (m : M A) (handler : error -> M A) : M A :=
  fun w =>
    match m w with
    | (Ok a, w') => (Ok a, w')
    | (Throw e, w') => handler e w'
    end.

Notation "x <- m ;; k" := (bind m (fun x => k))
  (at level 100, m at next level, right associativity).

(** A fresh cell; its reference is returned. *)
Definition alloc (c : cell) : M val :=
  fun w => (Ok (VRef (length (heap w))), mkWorld (heap w ++ [c]) (calls w)).

(** The cell a value refers to, if it is a reference. *)
Definition deref (v : val) : M (option cell) :=
  fun w => (Ok (match v with VRef l => heap w !! l | _ => None end), w).

(** heap[l] = c *)
Definition store (l : nat) (c : cell) : M unit :=
  fun w => (Ok tt, mkWorld (<[l := c]> (heap w)) (calls w)).

(** A function supplied by the caller (a leaf transform, a predicate, a
    fallback): pure, it returns a value or throws. *)
Record jsfun : Type := mkFun {
  fname : string;
  fbody : val -> result val
}.

(** f(x), logged. *)
Definition invoke (f : jsfun) (x : val) : M val :=
  fun w => (fbody f x, mkWorld (heap w) (calls w ++ [(fname f, x)])).

(** [!v] is false *)
Definition truthy (v : val) : bool :=
  match v with
  | VUndefined | VNull => false
  | VBool b => b
  | VNumber n => negb (PrimFloat.is_zero n || PrimFloat.is_nan n)
  | VString s => negb (String.eqb s "")
  | _ => true
  end.

(** array.map(func) visits the entries from the first one on and stops at
    the first throw. *)
Fixpoint mapM {A B : Type} (f : A -> M B) (l : list A) : M (list B) :=
  match l with
  | [] => ret []
  | x :: rest => y <- f x ;; ys <- mapM f rest ;; ret (y :: ys)
  end.

(** ** lodash *)

(** The names Object.prototype defines; a plain object inherits them. *)
Definition Object_prototype_names : list string :=
  [ "constructor"; "hasOwnProperty"; "isPrototypeOf"; "propertyIsEnumerable";
    "toLocaleString"; "toString"; "valueOf"; "__proto__";
    "__defineGetter__"; "__defineSetter__"; "__lookupGetter__"; "__lookupSetter__" ].

Definition inherited (key : string) : bool :=
  existsb (String.eqb key) Object_prototype_names.

(** object[key] on a plain object that inherits from Object.prototype:
    the own property, else the inherited one, else undefined. *)
Definition get (props : gmap string val) (key : string) : val :=
  match props !! key with
  | Some v => v
  | None => if inherited key then VBuiltin key else VUndefined
  end.

(** object[key] on an object without a prototype: the own property, else
    undefined. *)
Definition get_own (props : gmap string val) (key : string) : val :=
  match props !! key with
  | Some v => v
  | None => VUndefined
  end.

Module lodash.

(** baseAssignValue(object, key, value), on the object that
    lodash.mapValues has made: [object[key] = value], where the key
    __proto__ is set with Object.defineProperty and so becomes an own
    property as every other key does. *)
Definition baseAssignValue (object : val) (key : string) (value : val) : M unit :=
  c <- deref object ;;
  match object, c with
  | VRef l, Some (Obj props) => store l (Obj (<[key := value]> props))
  | _, _ => ret tt
  end.

(** baseForOwn(object, (value, key) =>
      baseAssignValue(result, key, iteratee(value, key))):
    the keys of [object] in their order, each assigned as soon as
    [iteratee] has returned for it; a throw of [iteratee] ends it. *)
Fixpoint mapValues_assign {A : Type} (result : val) (object : list (string * A))
    (iteratee : A -> string -> M val) : M unit :=
  match object with
  | [] => ret tt
  | (key, x) :: rest =>
      v <- iteratee x key ;;
      _ <- baseAssignValue result key v ;;
      mapValues_assign result rest iteratee
  end.

(** lodash.mapValues(object, iteratee): [var result = {}] comes first,
    then the keys; [result] is returned. *)
Definition mapValues {A : Type} (object : list (string * A))
    (iteratee : A -> string -> M val) : M val :=
  result <- alloc (Obj ∅) ;;
  _ <- mapValues_assign result object iteratee ;;
  ret result.

(** What lodash.defaults(object, source) leaves in [object], an object
    that inherits from Object.prototype.  For every key of [source]:

      var value = object[key];
      if (value === undefined ||
          (eq(value, objectProto[key]) && !hasOwnProperty.call(object, key)))
        object[key] = source[key];

    A key that [object] has of its own is assigned when it holds
    undefined.  A key that it has not is read from Object.prototype: that
    gives undefined or the member of Object.prototype itself, and the key
    is assigned.  The one exception is __proto__, which Object.prototype
    answers with the prototype of [object], while its own is null: when it
    is not an own key of [object], that key of [source] is left out. *)
Definition defaults_props (object source : gmap string val) : gmap string val :=
  union_with (fun o s => Some (if is_undefined o then s else o)) object
    (match object !! "__proto__" with
     | Some _ => source
     | None => delete "__proto__" source
     end).

(** lodash.defaults(object, source) writes into [object] and returns it;
    [source] is read only.  The sources call it on the object that
    lodash.mapValues has made and on a plain object. *)
Definition defaults (object source : val) : M val :=
  o <- deref object ;;
  s <- deref source ;;
  match object, o, s with
  | VRef l, Some (Obj oprops), Some (Obj sprops)
  | VRef l, Some (Obj oprops), Some (Bare sprops) =>
      _ <- store l (Obj (defaults_props oprops sprops)) ;; ret object
  | _, _, _ => ret object
  end.

End lodash.

(** ** parser: class Parser *)

(** The second argument of the constructors and of [parse]:
    { required = false, default: _default } = {} *)
Record Options : Type := mkOptions {
  opt_required : bool;
  opt_default : val      (* undefined when not given *)
}.

(** {} *)
Definition no_options : Options := mkOptions false VUndefined.

(** The fields of [this]. *)
Record Parser : Type := mkParser {
  func : val -> M val;
  required : bool;
  default : val
}.

(** constructor(func, options) *)
Definition new_Parser (func : val -> M val) (options : Options) : M Parser :=
  d <- (if negb (is_undefined (opt_default options))
        then func (opt_default options)
        else ret VUndefined) ;;
  ret (mkParser func (opt_required options) d).

(** call(value).  The object that the constructor returns, when called,
    runs this method on [this]: [p(value)] and, in a method, [this(value)]
    are [call]. *)
Definition call (this : Parser) (value : val) : M val :=
  let value := if is_undefined value then default this else value in
  if is_undefined value then
    if required this then throw MissingRequiredValue else ret VUndefined
  else func this value.

(** parse(func), the method *)
Definition Parser_parse (this : Parser) (func : jsfun) : M Parser :=
  new_Parser (fun value => v <- call this value ;; invoke func v) no_options.

(** validate(func) *)
Definition Parser_validate (this : Parser) (func : jsfun) : M Parser :=
  new_Parser
    (fun value =>
       value <- call this value ;;
       ok <- invoke func value ;;
       if negb (truthy ok) then throw ValidationFailed else ret value)
    no_options.

(** or(func) *)
Definition Parser_or (this : Parser) (func : jsfun) : M Parser :=
  new_Parser
    (fun value => try_catch (call this value) (fun _ => invoke func value))
    no_options.

(** ** class ArrayParser *)

(** The transform that the constructor hands to [super].  The array that
    [map] returns is allocated when its entries are there: one that a
    throw leaves unfinished is unreachable, and is not allocated. *)
Definition ArrayParser_func (func : val -> M val) (array : val) : M val :=
  c <- deref array ;;
  match c with
  | Some (Arr items) => items' <- mapM func items ;; alloc (Arr items')
  | _ => throw TypeMismatch
  end.

Definition new_ArrayParser (func : val -> M val) (options : Options) : M Parser :=
  new_Parser (ArrayParser_func func) options.

(** ** class ObjectParser *)

(** The transform that the constructor hands to [super]; [keyToFunc] has
    its keys in the order in which they are enumerated. *)
Definition ObjectParser_func (keyToFunc : list (string * Parser)) (object : val)
    : M val :=
  c <- deref object ;;
  match c with
  | Some (Obj props) =>
      picked <- lodash.mapValues keyToFunc (fun func key => call func (get props key)) ;;
      lodash.defaults picked object
  | Some (Bare props) =>
      picked <- lodash.mapValues keyToFunc (fun func key => call func (get_own props key)) ;;
      lodash.defaults picked object
  | _ => throw TypeMismatch
  end.

Definition new_ObjectParser (keyToFunc : list (string * Parser)) (options : Options)
    : M Parser :=
  new_Parser (ObjectParser_func keyToFunc) options.

(** ** What the constructor returns *)

(** The constructor of Parser ends with
    [return new Proxy(this.call.bind(this), { get: (_, key) => this[key] })]:
    a [new] expression does not evaluate to [this] but to that Proxy.  The
    three objects involved: *)
Inductive object : Type :=
  | Instance (this : Parser)                  (* [this], the ordinary object made by [new] *)
  | BoundCall (this : Parser)                 (* this.call.bind(this), a bound function *)
  | ProxyGet (target : object) (this : Parser).
                                              (* new Proxy(target, { get: (_, key) => this[key] }) *)

(** What [new Parser(...)], [new ArrayParser(...)] and
    [new ObjectParser(...)] evaluate to, for the [this] that the
    constructor filled in. *)
Definition constructed (this : Parser) : object :=
  ProxyGet (BoundCall this) this.

(** Calling an object.  A Proxy without an [apply] trap calls its target;
    the bound function calls the method [call] on its [this]. *)
Fixpoint apply (o : object) (value : val) : M val :=
  match o with
  | Instance _ => throw (TypeError "is not a function")
  | BoundCall this => call this value
  | ProxyGet target _ => apply target value
  end.

(** The prototype objects that can be met. *)
Inductive prototype : Type :=
  | Parser_prototype        (* Parser.prototype *)
  | Function_prototype      (* Function.prototype *)
  | Object_prototype.       (* Object.prototype *)

Definition prototype_eqb (a b : prototype) : bool :=
  match a, b with
  | Parser_prototype, Parser_prototype
  | Function_prototype, Function_prototype
  | Object_prototype, Object_prototype => true
  | _, _ => false
  end.

(** O.[[GetPrototypeOf]]().  That of [this] is the prototype of the class
    (for a subclass, one that has Parser.prototype above it).  That of a
    bound function is the one of the function bound, here the method
    [call]: Function.prototype.  A Proxy whose handler has no
    [getPrototypeOf] trap answers with the prototype of its target. *)
Fixpoint getPrototypeOf (o : object) : prototype :=
  match o with
  | Instance _ => Parser_prototype
  | BoundCall _ => Function_prototype
  | ProxyGet target _ => getPrototypeOf target
  end.

(** The prototype of a prototype object; Object.prototype has none. *)
Definition prototype_above (p : prototype) : option prototype :=
  match p with
  | Object_prototype => None
  | _ => Some Object_prototype
  end.

(** The prototype chain of an object, nearest first. *)
Definition prototype_chain (o : object) : list prototype :=
  let first := getPrototypeOf o in
  match prototype_above first with
  | Some above => [first; above]
  | None => [first]
  end.

(** [o instanceof C], for the class whose [prototype] property is [C]:
    OrdinaryHasInstance looks for [C] on the prototype chain of [o]. *)
Definition instanceof (o : object) (C : prototype) : bool :=
  existsb (prototype_eqb C) (prototype_chain o).

(** ** function parse *)

(** A schema descriptor. *)
#[local] Unset Elimination Schemes.
Inductive schema : Type :=
  | SParser (this : Parser)                   (* [constructed this]: what a constructor returned *)
  | SFunction (f : jsfun)                     (* a plain function *)
  | SArray (items : list schema)              (* an array literal *)
  | SObject (fields : list (string * schema)) (* an object literal, its keys in the order
                                                 in which they are enumerated *)
  | SOther (typeof : string).                 (* anything else, by its typeof *)
#[local] Set Elimination Schemes.

(** parse(schema, options = {}).  It returns a Parser [this], standing
    for the object [constructed this]; calling that object is
    [call this] (see [apply]).

    A plain function, an array, an object literal and a primitive value
    are not made by the constructor of Parser: [schema instanceof Parser]
    is false for them, and each goes to the test written for it.
    lodash.isFunction holds of a Proxy whose target is a function.
    [schema[0]] of an empty array is undefined, and parse(undefined)
    throws. *)
Fixpoint parse (s : schema) (options : Options) {struct s} : M Parser :=
  match s with
  | SParser this =>
      if instanceof (constructed this) Parser_prototype
      then ret this                                              (* return schema *)
      else new_Parser (apply (constructed this)) options         (* lodash.isFunction(schema) *)
  | SFunction f => new_Parser (invoke f) options
  | SArray items =>
      match items with
      | first :: _ =>
          p <- parse first no_options ;;
          new_ArrayParser (call p) options
      | [] => throw (UnsupportedSchemaType "undefined")
      end
  | SObject fields =>
      keyToFunc <-
        (fix each (fs : list (string * schema)) : M (list (string * Parser)) :=
           match fs with
           | [] => ret []
           | (key, v) :: rest =>
               p <- parse v no_options ;; ps <- each rest ;; ret ((key, p) :: ps)
           end) fields ;;
      new_ObjectParser keyToFunc options
  | SOther typeof => throw (UnsupportedSchemaType typeof)
  end.

(** ** Worlds, Parsers and functions that the statements name *)

(** The world before anything is allocated or called. *)
Definition empty_world : world := mkWorld [] [].

(** parse(f) for a function f *)
Definition leaf_Parser (f : jsfun) : Parser := mkParser (invoke f) false VUndefined.

(** A required Parser of the transform [f], without a default. *)
Definition required_Parser (f : jsfun) : Parser := mkParser (invoke f) true VUndefined.

(** Array.isArray(v), in a world *)
Definition isArray (w : world) (v : val) : bool :=
  match v with
  | VRef l => match heap w !! l with Some (Arr _) => true | _ => false end
  | _ => false
  end.

(** What parse(f) makes of one entry: undefined stays undefined and f is
    not called, another value a becomes f(a). *)
Definition entry_parsed (f : jsfun) (a b : val) : Prop :=
  if is_undefined a then b = VUndefined else fbody f a = Ok b.

(** The calls of f that parse(f) makes when applied to the entries in
    turn: one for each entry other than undefined. *)
Definition invocations (f : jsfun) (entries : list val) : list (string * val) :=
  map (fun a => (fname f, a)) (List.filter (fun a => negb (is_undefined a)) entries).

(** value => 'fallback' *)
Definition constant (name : string) (v : val) : jsfun := mkFun name (fun _ => Ok v).

(** x => x *)
Definition identity : jsfun := mkFun "f" (fun v => Ok v).

(** s => s + '!', for a string s; it throws on anything else. *)
Definition exclaim : jsfun :=
  mkFun "exclaim"
    (fun v =>
       match v with
       | VString s => Ok (VString (String.append s "!"))
       | _ => Throw (LeafError "not a string")
       end).

(** n => n + 1, for a number n; it throws on anything else. *)
Definition increment : jsfun :=
  mkFun "increment"
    (fun v =>
       match v with
       | VNumber n => Ok (VNumber (n + 1))
       | _ => Throw (LeafError "not a number")
       end).

(** A field descriptor whose Parser is not required and has no default:
    a plain function, which parse wraps with no options, or such a
    Parser built before. *)
Definition optional_field (field : schema) : Prop :=
  match field with
  | SFunction _ => True
  | SParser this => required this = false /\ default this = VUndefined
  | _ => False
  end.

(** x => !x *)
Definition negation : jsfun := mkFun "not" (fun v => Ok (VBool (negb (truthy v)))).


(** The descriptors on which parse does not throw "unknown schema type":
    a function or a Parser; an array literal whose first entry is one (the
    other entries are not looked at); an object literal all of whose
    values are. *)
Fixpoint supported (s : schema) : bool :=
  match s with
  | SParser _ | SFunction _ => true
  | SArray items =>
      match items with
      | first :: _ => supported first
      | [] => false
      end
  | SObject fields =>
      (fix all (fs : list (string * schema)) : bool :=
         match fs with
         | [] => true
         | (_, v) :: rest => supported v && all rest
         end) fields
  | SOther _ => false
  end.

(** The supported descriptors whose leaves are plain functions. *)
Fixpoint built_from_functions (s : schema) : bool :=
  match s with
  | SFunction _ => true
  | SArray items =>
      match items with
      | first :: _ => built_from_functions first
      | [] => false
      end
  | SObject fields =>
      (fix all (fs : list (string * schema)) : bool :=
         match fs with
         | [] => true
         | (_, v) :: rest => built_from_functions v && all rest
         end) fields
  | SParser _ | SOther _ => false
  end.

(** lodash.mapValues(schema, v => parse(v)) in [parse], by its name: the
    values of an object literal compiled in the order of the keys, until
    one throws. *)
Definition parse_fields (fields : list (string * schema)) : M (list (string * Parser)) :=
  (fix each (fs : list (string * schema)) : M (list (string * Parser)) :=
     match fs with
     | [] => ret []
     | (key, v) :: rest =>
         p <- parse v no_options ;; ps <- each rest ;; ret ((key, p) :: ps)
     end) fields.

(** [w'] has the cells of [w], unchanged, and maybe more. *)
Definition extends (w w' : world) : Prop :=
  exists cells, heap w' = heap w ++ cells.

(** A transform that writes to no cell that was there before it ran. *)
Definition allocates_only (f : val -> M val) : Prop :=
  forall x w, extends w (snd (f x w)).

(** The object literal {k1: f1, ...} of functions, as a descriptor. *)
Definition function_fields (fields : list (string * jsfun)) : list (string * schema) :=
  map (fun kf => (fst kf, SFunction (snd kf))) fields.

(** What parse makes of it: every function wrapped with no options. *)
Definition leaf_Parsers (fields : list (string * jsfun)) : list (string * Parser) :=
  map (fun kf => (fst kf, leaf_Parser (snd kf))) fields.

(** A transform that, when it returns, returns a cell that was not there
    before it ran. *)
Definition returns_new_cell (f : val -> M val) : Prop :=
  forall x w v w',
    f x w = (Ok v, w') ->
    exists l c, v = VRef l /\ heap w !! l = None /\ heap w' !! l = Some c.

(** A plain object, by its cell: its own properties, and what
    [object[key]] reads. *)
Definition plain (c : cell) : option (gmap string val * (string -> val)) :=
  match c with
  | Obj props => Some (props, get props)
  | Bare props => Some (props, get_own props)
  | _ => None
  end.

(** [values] are what the fields make of the properties of the input,
    each of its own; [read key] is the input's [object[key]]. *)
Definition fields_parsed (read : string -> val) (fields : list (string * jsfun))
    (values : list val) : Prop :=
  Forall2 (fun kf v => entry_parsed (snd kf) (read (fst kf)) v) fields values.

(** The calls that the fields make, in the order of the keys. *)
Definition field_calls (read : string -> val) (fields : list (string * jsfun))
    : list (string * val) :=
  flat_map (fun kf => invocations (snd kf) [read (fst kf)]) fields.

(** [picked] after the keys of [entries] have been assigned their
    values, one after the other. *)
Definition assigned (picked : gmap string val) (entries : list (string * val))
    : gmap string val :=
  foldl (fun m kv => <[fst kv := snd kv]> m) picked entries.

(** The object that lodash.mapValues makes of the parsed values. *)
Definition picked_props (fields : list (string * jsfun)) (values : list val)
    : gmap string val :=
  assigned ∅ (zip (map fst fields) values).

(** A conversion of the host that an example does not reach. *)
Definition no_conversion {A : Type} : A -> string := fun _ => EmptyString.

(** * Properties *)

(** ** The examples of the documentation, run *)

Section DocumentedExamples.

Let no_string : string := "".
Let Hex' : val -> result string :=
  Hex (fun _ => no_string) (fun _ => no_string) (fun _ => no_string).
Let isHex' : val -> bool := isHex (fun _ => no_string).
Let toBuffer' : val -> result (list Byte.byte) := toBuffer (fun _ => no_string).

(** > Hex(null)  "0x" *)
Example Hex_null : Hex' VNull = Ok "0x".
Proof. reflexivity. Qed.

(** > Hex('10')  "0x10" *)
Example Hex_naked : Hex' (VString "10") = Ok "0x10".
Proof. reflexivity. Qed.

(** > Hex('0x1')  "0x01" *)
Example Hex_padded : Hex' (VString "0x1") = Ok "0x01".
Proof. reflexivity. Qed.

(** > Hex(Buffer.from([1, 2]))  "0x0102" *)
Example Hex_buffer : Hex' (VBuffer [Byte.x01; Byte.x02]) = Ok "0x0102".
Proof. reflexivity. Qed.

Example Hex_upper_case : Hex' (VString "0XaB") = Ok "0xab".
Proof. reflexivity. Qed.

Example Hex_not_hex : Hex' (VString "0xg0") = Throw (NotHexString "0xg0").
Proof. reflexivity. Qed.

(** > Hex.isHex('0x') true, ('0x01') true, ('0x1') false, ('01') false *)
Example isHex_documented :
  isHex' (VString "0x") = true /\ isHex' (VString "0x01") = true
  /\ isHex' (VString "0x1") = false /\ isHex' (VString "01") = false.
Proof. repeat split. Qed.

(** > Hex.toBuffer('0x0102')  <Buffer 01 02> *)
Example toBuffer_documented : toBuffer' (VString "0x0102") = Ok [Byte.x01; Byte.x02].
Proof. reflexivity. Qed.

End DocumentedExamples.

(** The nested schema {list: [{x: f}]} on {list: [{x: 1}]}: every level of
    the result is a new cell, and the three cells of the input stay.  The
    object of a level is made before its fields are parsed. *)
Example nested_schema :
  let input := [ Obj {[ "x" := VNumber 1 ]};          (* 0: {x: 1} *)
                 Arr [VRef 0];                         (* 1: [{x: 1}] *)
                 Obj {[ "list" := VRef 1 ]} ] in       (* 2: {list: [{x: 1}]} *)
  exists p,
    parse (SObject [("list", SArray [SObject [("x", SFunction increment)]])])
      no_options empty_world = (Ok p, empty_world)
    /\ call p (VRef 2) (mkWorld input [])
       = (Ok (VRef 3),
          mkWorld (input ++ [ Obj {[ "list" := VRef 5 ]};     (* 3 *)
                              Obj {[ "x" := VNumber 2 ]};     (* 4: {x: f(1)} *)
                              Arr [VRef 4] ])                 (* 5 *)
                  [("increment", VNumber 1)]).
Proof. eexists. split; reflexivity. Qed.

(** ** Hex on canonical strings *)

(** Strings two characters at a time. *)
Lemma string_pairs_ind (P : string -> Prop) :
  P EmptyString ->
  (forall c, P (String c EmptyString)) ->
  (forall c1 c2 rest, P rest -> P (String c1 (String c2 rest))) ->
  forall s, P s.
Proof.
  intros Hnil Hone Hstep.
  fix IH 1. intros [|c1 [|c2 rest]].
  - exact Hnil.
  - apply Hone.
  - apply Hstep, IH.
Qed.

(** A digit of the class [0-9a-f] is the lower-case digit of its value. *)
Lemma lower_hex_digit (c : ascii) :
  is_lower_hex c = true ->
  exists n, hex_value c = Some n /\ (n < 16)%N /\ hex_char n = c.
Proof.
  destruct c as [[] [] [] [] [] [] [] []]; intros H;
    try (vm_compute in H; discriminate H);
    eexists; (split; [reflexivity | split; reflexivity]).
Qed.

Lemma to_N_byte_of_nibbles (hi lo : N) :
  (hi < 16)%N -> (lo < 16)%N -> Byte.to_N (byte_of_nibbles hi lo) = (16 * hi + lo)%N.
Proof.
  intros Hhi Hlo. unfold byte_of_nibbles.
  destruct (Byte.of_N (16 * hi + lo)) as [b|] eqn:E.
  - now apply Byte.to_of_N.
  - apply Byte.of_N_None_iff in E. lia.
Qed.

(** Encoding the bytes decoded from lower-case digit pairs gives the
    digits back. *)
Lemma hex_encode_decode (s : string) :
  hex_pairs s = true -> hex_encode (hex_decode s) = s.
Proof.
  induction s as [|c|c1 c2 rest IH] using string_pairs_ind; simpl.
  - reflexivity.
  - discriminate.
  - intros H. apply andb_prop in H as [H Hrest]. apply andb_prop in H as [H1 H2].
    destruct (lower_hex_digit c1 H1) as (hi & -> & Hhi & <-).
    destruct (lower_hex_digit c2 H2) as (lo & -> & Hlo & <-).
    simpl. rewrite (to_N_byte_of_nibbles hi lo Hhi Hlo), (IH Hrest).
    replace ((16 * hi + lo) / 16)%N with hi
      by (apply N.div_unique with lo; [exact Hlo | reflexivity]).
    replace ((16 * hi + lo) mod 16)%N with lo
      by (apply N.mod_unique with hi; [exact Hlo | reflexivity]).
    reflexivity.
Qed.

Lemma hex_regex_shape (s : string) :
  hex_regex s = true ->
  exists digits, s = String "0" (String "x" digits) /\ hex_pairs digits = true.
Proof.
  destruct s as [|c1 [|c2 digits]]; try discriminate.
  - unfold hex_regex. destruct c1 as [[] [] [] [] [] [] [] []]; discriminate.
  - unfold hex_regex.
    destruct c1 as [[] [] [] [] [] [] [] []]; try discriminate;
      destruct c2 as [[] [] [] [] [] [] [] []]; try discriminate.
    intros H. exists digits. split; [reflexivity | exact H].
Qed.

Section HexProperties.

Variable Number_toString16 : float -> string.
Variable BigNumber_toString16 : string -> string.
Variable ToString : val -> string.

(** C10: on a string h that Hex.isHex accepts, Hex returns h itself, and
    Hex of the Buffer that Hex.toBuffer makes of h is h again. *)
Theorem Hex_of_canonical_string (h : string) :
  isHex ToString (VString h) = true ->
  Hex Number_toString16 BigNumber_toString16 ToString (VString h) = Ok h
  /\ exists buffer, toBuffer ToString (VString h) = Ok buffer
                    /\ Hex Number_toString16 BigNumber_toString16 ToString
                         (VBuffer buffer) = Ok h.
Proof.
  intros H. split.
  - unfold Hex, Hex_of_string. now rewrite H.
  - exists (hex_decode (substring2 h)). unfold toBuffer. rewrite H. simpl.
    split; [reflexivity|].
    unfold isHex in H. simpl in H.
    destruct (hex_regex_shape h H) as (digits & -> & Hdigits).
    simpl. now rewrite (hex_encode_decode digits Hdigits).
Qed.

End HexProperties.

Lemma Hex_of_canonical_string_witness :
  isHex (fun _ => "") (VString "0x01ab") = true
  /\ (Hex (fun _ => "") (fun _ => "") (fun _ => "") (VString "0x01ab") = Ok "0x01ab"
      /\ exists buffer,
           toBuffer (fun _ => "") (VString "0x01ab") = Ok buffer
           /\ Hex (fun _ => "") (fun _ => "") (fun _ => "") (VBuffer buffer) = Ok "0x01ab").
Proof.
  split; [reflexivity|].
  apply (Hex_of_canonical_string (fun _ => "") (fun _ => "") (fun _ => "") "0x01ab").
  reflexivity.
Defined.

(** ** The combinators and the absent value *)

Lemma world_eta (w : world) : mkWorld (heap w) (calls w) = w.
Proof. now destruct w. Qed.

Lemma is_undefined_false (x : val) : x <> VUndefined -> is_undefined x = false.
Proof. destruct x; intros H; [contradiction | reflexivity..]. Qed.

(** On a value other than undefined, [call] is the transform. *)
Lemma call_present (this : Parser) (x : val) :
  x <> VUndefined -> call this x = func this x.
Proof.
  intros Hx. unfold call. rewrite (is_undefined_false x Hx). cbv zeta iota.
  now rewrite (is_undefined_false x Hx).
Qed.

(** On undefined, [call] goes by the cached default. *)
Lemma call_absent (this : Parser) :
  call this VUndefined =
    if is_undefined (default this)
    then (if required this then throw MissingRequiredValue else ret VUndefined)
    else func this (default this).
Proof. reflexivity. Qed.

(** C4: a Parser with no default, applied to undefined, throws "value is
    required" when it is required and returns undefined when it is not; its
    transform is not run, so the world, call log included, stays as it was. *)
Theorem call_absent_without_default :
  forall (func : val -> M val) (r : bool) (w w' : world),
    new_Parser func (mkOptions r VUndefined) w = (Ok (mkParser func r VUndefined), w)
    /\ call (mkParser func r VUndefined) VUndefined w'
       = (if r then Throw MissingRequiredValue else Ok VUndefined, w').
Proof.
  intros func r w w'. split; [reflexivity|].
  unfold call; simpl. destruct r; reflexivity.
Qed.

(** C9: parse(g), validate(g) and or(g) build their Parser with no options:
    it is not required and has no default, whatever the receiver is, so
    that on undefined it returns undefined and leaves the world, call log
    included, as it was: neither g nor the receiver is run. *)
Theorem combinators_ignore_absent :
  forall (this : Parser) (g : jsfun) (w : world),
    (exists q, Parser_parse this g w = (Ok q, w)
               /\ required q = false /\ default q = VUndefined
               /\ forall w', call q VUndefined w' = (Ok VUndefined, w'))
    /\ (exists q, Parser_validate this g w = (Ok q, w)
               /\ required q = false /\ default q = VUndefined
               /\ forall w', call q VUndefined w' = (Ok VUndefined, w'))
    /\ (exists q, Parser_or this g w = (Ok q, w)
               /\ required q = false /\ default q = VUndefined
               /\ forall w', call q VUndefined w' = (Ok VUndefined, w')).
Proof.
  intros this g w. repeat split; eexists; repeat split.
Qed.

(** C2 fails on undefined: a required Parser throws on it, and its or(g)
    returns undefined without calling g. *)
Lemma or_absent_counterexample :
  let p := required_Parser (constant "f" (VString "parsed")) in
  let g := constant "g" (VString "fallback") in
  call p VUndefined empty_world = (Throw MissingRequiredValue, empty_world)
  /\ exists q, Parser_or p g empty_world = (Ok q, empty_world)
       /\ call q VUndefined empty_world = (Ok VUndefined, empty_world)
       /\ call q VUndefined empty_world <> invoke g VUndefined empty_world.
Proof.
  simpl. split; [reflexivity|]. eexists. split; [reflexivity|].
  split; [reflexivity|]. discriminate.
Qed.

(** C2, amended: on an input x other than undefined, p.or(g) does what p
    does when p returns, world and call log included, so g is not called;
    when p throws, whatever it throws, it calls g on x in the world p
    left. *)
Theorem or_on_present_value :
  forall (p : Parser) (g : jsfun) (x : val) (w : world),
    x <> VUndefined ->
    exists q, Parser_or p g w = (Ok q, w)
      /\ (forall w0 e w1, call p x w0 = (Throw e, w1) -> call q x w0 = invoke g x w1)
      /\ (forall w0 v w1, call p x w0 = (Ok v, w1) -> call q x w0 = (Ok v, w1)).
Proof.
  intros p g x w Hx. eexists. split; [reflexivity|].
  split; intros w0 ? w1 Hp; rewrite (call_present _ x Hx); simpl;
    unfold try_catch; now rewrite Hp.
Qed.

Lemma or_on_present_value_witness :
  VNull <> VUndefined
  /\ exists q,
       Parser_or (leaf_Parser exclaim) (constant "g" (VString "fallback")) empty_world
         = (Ok q, empty_world)
       /\ call q VNull empty_world
          = invoke (constant "g" (VString "fallback")) VNull
              (mkWorld [] [("exclaim", VNull)])
       /\ call q (VString "a") empty_world
          = (Ok (VString "a!"), mkWorld [] [("exclaim", VString "a")]).
Proof.
  destruct (or_on_present_value (leaf_Parser exclaim) (constant "g" (VString "fallback"))
              VNull empty_world ltac:(discriminate)) as (q & Hq & Hthrow & _).
  split; [discriminate|]. exists q. split; [exact Hq|]. split.
  - apply (Hthrow empty_world (LeafError "not a string")). reflexivity.
  - destruct (or_on_present_value (leaf_Parser exclaim) (constant "g" (VString "fallback"))
                (VString "a") empty_world ltac:(discriminate)) as (q' & Hq' & _ & Hok).
    assert (q' = q) as -> by congruence.
    apply (Hok empty_world). reflexivity.
Defined.

(** ** The cached default *)

(** C3, as the code runs: constructing a Parser of the transform t with
    the raw default D calls t once, on D, and caches what it returns,
    t(D).  But the Parser applied to undefined does not return the cached
    value: [call] puts it in the place of the input and goes on to the
    transform, so that t is called again, on t(D), at every such call, and
    what is returned is t(t(D)).  That is t(D) only where t returns t(D)
    on t(D).  When t(D) is undefined the Parser is as one without a
    default. *)
Theorem cached_default_is_transformed_again :
  forall (t : jsfun) (D d : val) (r : bool) (w : world),
    D <> VUndefined ->
    fbody t D = Ok d ->
    new_Parser (invoke t) (mkOptions r D) w
      = (Ok (mkParser (invoke t) r d), mkWorld (heap w) (calls w ++ [(fname t, D)]))
    /\ (d <> VUndefined ->
        forall w', call (mkParser (invoke t) r d) VUndefined w'
                   = (fbody t d, mkWorld (heap w') (calls w' ++ [(fname t, d)])))
    /\ (d <> VUndefined -> fbody t d = Ok d ->
        forall w', fst (call (mkParser (invoke t) r d) VUndefined w') = Ok d)
    /\ (d = VUndefined ->
        forall w', call (mkParser (invoke t) r d) VUndefined w'
                   = (if r then Throw MissingRequiredValue else Ok VUndefined, w')).
Proof.
  intros t D d r w HD Ht. repeat split.
  - unfold new_Parser, bind, invoke. simpl.
    rewrite (is_undefined_false D HD). simpl. now rewrite Ht.
  - intros Hd w'. rewrite call_absent. simpl.
    now rewrite (is_undefined_false d Hd).
  - intros Hd Hdd w'. rewrite call_absent. simpl.
    rewrite (is_undefined_false d Hd). simpl. exact Hdd.
  - intros -> w'. rewrite call_absent. simpl. now destruct r.
Qed.

(** With x => !x and the raw default false: the cached default is true,
    which is t(D), and the Parser applied to undefined returns false. *)
Lemma cached_default_is_transformed_again_witness :
  VBool false <> VUndefined
  /\ fbody negation (VBool false) = Ok (VBool true)
  /\ new_Parser (invoke negation) (mkOptions false (VBool false)) empty_world
       = (Ok (mkParser (invoke negation) false (VBool true)),
          mkWorld [] [("not", VBool false)])
  /\ call (mkParser (invoke negation) false (VBool true)) VUndefined
         (mkWorld [] [("not", VBool false)])
       = (Ok (VBool false), mkWorld [] [("not", VBool false); ("not", VBool true)])
  /\ Ok (VBool false) <> fbody negation (VBool false).
Proof.
  pose proof (cached_default_is_transformed_again negation (VBool false) (VBool true)
                false empty_world ltac:(discriminate) eq_refl) as (Hnew & Hcall & _).
  split; [discriminate|]. split; [reflexivity|]. split; [exact Hnew|].
  split; [|discriminate].
  exact (Hcall ltac:(discriminate) (mkWorld [] [("not", VBool false)])).
Defined.

(** ** validate *)

(** C8 fails on undefined: with a transform that returns 'v' on every
    input and a predicate that is never satisfied,
    parse(f).validate(pred) returns undefined on undefined; it does not
    throw, and calls neither f nor pred. *)
Lemma validate_absent_counterexample :
  let f := constant "f" (VString "v") in
  let pred := constant "pred" (VBool false) in
  fbody f VUndefined = Ok (VString "v")
  /\ fbody pred (VString "v") = Ok (VBool false)
  /\ truthy (VBool false) = false
  /\ exists p q,
       parse (SFunction f) no_options empty_world = (Ok p, empty_world)
       /\ Parser_validate p pred empty_world = (Ok q, empty_world)
       /\ call q VUndefined empty_world = (Ok VUndefined, empty_world)
       /\ fst (call q VUndefined empty_world) <> Throw ValidationFailed.
Proof.
  simpl. repeat split. do 2 eexists. repeat split. discriminate.
Qed.

(** C8, amended: on an input x other than undefined on which f returns v
    and pred returns on v, parse(f).validate(pred) calls f on x, then pred
    on v, and throws "do not match validator" when what pred returned is
    falsy; otherwise it returns v. *)
Theorem validate_on_present_value :
  forall (f pred : jsfun) (x v b : val) (w : world),
    x <> VUndefined ->
    fbody f x = Ok v ->
    fbody pred v = Ok b ->
    exists p q,
      parse (SFunction f) no_options w = (Ok p, w)
      /\ Parser_validate p pred w = (Ok q, w)
      /\ forall w0, call q x w0
           = (if truthy b then Ok v else Throw ValidationFailed,
              mkWorld (heap w0) (calls w0 ++ [(fname f, x); (fname pred, v)])).
Proof.
  intros f pred x v b w Hx Hf Hpred. do 2 eexists.
  split; [reflexivity|]. split; [reflexivity|]. intros w0.
  rewrite (call_present _ x Hx). simpl. unfold bind.
  rewrite (call_present _ x Hx). simpl. unfold invoke. rewrite Hf. simpl.
  rewrite Hpred, <- app_assoc. simpl. now destruct (truthy b).
Qed.

Lemma validate_on_present_value_witness :
  VString "1" <> VUndefined
  /\ fbody (constant "f" (VString "v")) (VString "1") = Ok (VString "v")
  /\ fbody (constant "pred" (VBool false)) (VString "v") = Ok (VBool false)
  /\ exists p q,
       parse (SFunction (constant "f" (VString "v"))) no_options empty_world
         = (Ok p, empty_world)
       /\ Parser_validate p (constant "pred" (VBool false)) empty_world
         = (Ok q, empty_world)
       /\ call q (VString "1") empty_world
          = (Throw ValidationFailed,
             mkWorld [] [("f", VString "1"); ("pred", VString "v")]).
Proof.
  split; [discriminate|]. split; [reflexivity|]. split; [reflexivity|].
  destruct (validate_on_present_value (constant "f" (VString "v"))
              (constant "pred" (VBool false)) (VString "1") (VString "v") (VBool false)
              empty_world ltac:(discriminate) eq_refl eq_refl) as (p & q & Hp & Hq & Hcall).
  exists p, q. split; [exact Hp|]. split; [exact Hq|]. exact (Hcall empty_world).
Defined.

(** ** parse on a Parser *)

(** C7, as the code runs: a Parser that a constructor returned is a Proxy
    of a bound function, Parser.prototype is not among its prototypes, and
    [schema instanceof Parser] is false.  parse goes on to
    lodash.isFunction, which holds, and returns a new Parser whose
    transform calls the given one and whose required flag and default are
    those of the options.  Given a required Parser and no options, the
    result is not required: on undefined it returns undefined where the
    given Parser throws. *)
Theorem parse_wraps_built_Parser :
  (forall (this : Parser), instanceof (constructed this) Parser_prototype = false)
  /\ (forall (this : Parser) (options : Options) (w : world),
        parse (SParser this) options w = new_Parser (call this) options w)
  /\ (forall (f : jsfun) (w : world),
        exists q, parse (SParser (required_Parser f)) no_options w = (Ok q, w)
          /\ required q = false
          /\ call q VUndefined w = (Ok VUndefined, w)
          /\ call (required_Parser f) VUndefined w = (Throw MissingRequiredValue, w)).
Proof.
  split; [reflexivity|]. split; [reflexivity|].
  intros f w. eexists. repeat split.
Qed.

(** ** Arrays *)

Lemma invocations_app (f : jsfun) (l1 l2 : list val) :
  invocations f (l1 ++ l2) = invocations f l1 ++ invocations f l2.
Proof. unfold invocations. now rewrite List.filter_app, map_app. Qed.

Lemma call_leaf (f : jsfun) (a : val) (w : world) :
  call (leaf_Parser f) a w
  = if is_undefined a then (Ok VUndefined, w) else invoke f a w.
Proof.
  destruct (is_undefined a) eqn:E.
  - destruct a; try discriminate E. reflexivity.
  - rewrite call_present; [reflexivity | now intros ->].
Qed.

Lemma call_leaf_parsed (f : jsfun) (a b : val) (w : world) :
  entry_parsed f a b ->
  call (leaf_Parser f) a w = (Ok b, mkWorld (heap w) (calls w ++ invocations f [a])).
Proof.
  unfold entry_parsed, invocations. rewrite call_leaf. simpl.
  destruct (is_undefined a); simpl.
  - intros ->. now rewrite app_nil_r, world_eta.
  - intros H. unfold invoke. now rewrite H.
Qed.

(** Every entry parses: the results, in order. *)
Lemma mapM_leaf_Ok (f : jsfun) (items out : list val) :
  Forall2 (entry_parsed f) items out ->
  forall w, mapM (call (leaf_Parser f)) items w
            = (Ok out, mkWorld (heap w) (calls w ++ invocations f items)).
Proof.
  induction 1 as [|a b items out Hab _ IH]; intros w; simpl.
  - unfold ret, invocations. simpl. now rewrite app_nil_r, world_eta.
  - unfold bind. rewrite (call_leaf_parsed f a b w Hab), IH. simpl.
    change (a :: items) with ([a] ++ items).
    now rewrite invocations_app, app_assoc.
Qed.

(** The first entry on which f throws ends the whole map. *)
Lemma mapM_leaf_Throw (f : jsfun) (pre out : list val) (a : val) (e : error)
    (post : list val) :
  Forall2 (entry_parsed f) pre out ->
  a <> VUndefined ->
  fbody f a = Throw e ->
  forall w, mapM (call (leaf_Parser f)) (pre ++ a :: post) w
            = (Throw e, mkWorld (heap w) (calls w ++ invocations f (pre ++ [a]))).
Proof.
  intros Hpre Ha He. induction Hpre as [|a0 b0 pre out Hab _ IH]; intros w; simpl.
  - unfold bind. rewrite call_leaf, (is_undefined_false a Ha).
    unfold invoke, invocations. simpl. now rewrite He, (is_undefined_false a Ha).
  - unfold bind. rewrite (call_leaf_parsed f a0 b0 w Hab), IH. simpl.
    change (a0 :: pre ++ [a]) with ([a0] ++ (pre ++ [a])).
    now rewrite (invocations_app f [a0]), app_assoc.
Qed.

(** C5 fails on undefined: parse([f]) applied to undefined, which is not
    an array, returns undefined; and an entry that is undefined stays
    undefined where f would have returned 'v' on it. *)
Lemma array_absent_counterexample :
  let f := constant "f" (VString "v") in
  let w0 := mkWorld [Arr [VUndefined]] [] in
  isArray w0 VUndefined = false
  /\ fbody f VUndefined = Ok (VString "v")
  /\ exists p,
       parse (SArray [SFunction f]) no_options empty_world = (Ok p, empty_world)
       /\ fst (call p VUndefined w0) = Ok VUndefined
       /\ fst (call p VUndefined w0) <> Throw TypeMismatch
       /\ call p (VRef 0) w0 = (Ok (VRef 1), mkWorld [Arr [VUndefined]; Arr [VUndefined]] [])
       /\ [VUndefined] <> [VString "v"].
Proof.
  simpl. split; [reflexivity|]. split; [reflexivity|]. eexists.
  split; [reflexivity|]. split; [reflexivity|]. split; [discriminate|].
  split; [reflexivity | discriminate].
Qed.

(** C5, amended: parse([f]) returns undefined on undefined, whatever f
    is, and throws "expected a array" on every other input that is not an
    array.  On an array it returns a new array
    of the same length whose entries are, in order, f of the entry where
    the entry is not undefined, and undefined where it is; the input array
    stays as it was.  f is called on the entries in order, and the first
    entry on which it throws ends the call with what f threw: there is no
    partial result, and f is not called on the entries after it. *)
Theorem array_parser_maps_in_order :
  forall (f : jsfun) (w : world),
    exists p, parse (SArray [SFunction f]) no_options w = (Ok p, w)
      /\ (forall w0, call p VUndefined w0 = (Ok VUndefined, w0))
      /\ (forall x w0, x <> VUndefined -> isArray w0 x = false ->
            call p x w0 = (Throw TypeMismatch, w0))
      /\ (forall l items out w0,
            heap w0 !! l = Some (Arr items) ->
            Forall2 (entry_parsed f) items out ->
            call p (VRef l) w0
              = (Ok (VRef (length (heap w0))),
                 mkWorld (heap w0 ++ [Arr out]) (calls w0 ++ invocations f items))
            /\ length out = length items
            /\ (heap w0 ++ [Arr out]) !! l = Some (Arr items))
      /\ (forall l pre a post out e w0,
            heap w0 !! l = Some (Arr (pre ++ a :: post)) ->
            Forall2 (entry_parsed f) pre out ->
            a <> VUndefined ->
            fbody f a = Throw e ->
            call p (VRef l) w0
              = (Throw e, mkWorld (heap w0) (calls w0 ++ invocations f (pre ++ [a])))).
Proof.
  intros f w. eexists. split; [reflexivity|]. split; [intros w0; reflexivity|].
  repeat split.
  - intros x w0 Hx Harr. rewrite (call_present _ x Hx). simpl.
    unfold ArrayParser_func, bind, deref, isArray in *.
    destruct x as [| | | | | | | | |l]; try reflexivity.
    destruct (heap w0 !! l) as [[items| | |]|]; try reflexivity. discriminate Harr.
  - rename H into Hl, H0 into Hitems.
    rewrite call_present by discriminate. simpl.
    unfold ArrayParser_func, bind, deref. rewrite Hl.
    fold (leaf_Parser f). now rewrite (mapM_leaf_Ok f items out Hitems w0).
  - symmetry. eapply Forall2_length; eauto.
  - rewrite lookup_app_l; [assumption | eapply lookup_lt_Some; eauto].
  - intros l pre a post out e w0 Hl Hpre Ha He.
    rewrite call_present by discriminate. simpl.
    unfold ArrayParser_func, bind, deref. rewrite Hl.
    fold (leaf_Parser f). now rewrite (mapM_leaf_Throw f pre out a e post Hpre Ha He w0).
Qed.

Lemma array_parser_maps_in_order_witness :
  exists p,
    parse (SArray [SFunction exclaim]) no_options empty_world = (Ok p, empty_world)
    /\ call p VUndefined empty_world = (Ok VUndefined, empty_world)
    /\ call p VNull empty_world = (Throw TypeMismatch, empty_world)
    /\ call p (VRef 0) (mkWorld [Arr [VString "a"; VUndefined; VString "b"]] [])
       = (Ok (VRef 1),
          mkWorld [Arr [VString "a"; VUndefined; VString "b"];
                   Arr [VString "a!"; VUndefined; VString "b!"]]
                  [("exclaim", VString "a"); ("exclaim", VString "b")])
    /\ call p (VRef 0) (mkWorld [Arr [VString "a"; VNull; VString "b"]] [])
       = (Throw (LeafError "not a string"),
          mkWorld [Arr [VString "a"; VNull; VString "b"]]
                  [("exclaim", VString "a"); ("exclaim", VNull)]).
Proof.
  destruct (array_parser_maps_in_order exclaim empty_world)
    as (p & Hp & Habsent & Hother & Hmap & Hthrow).
  exists p. split; [exact Hp|]. split; [apply Habsent|]. split; [|split].
  - apply Hother; [discriminate | reflexivity].
  - apply (Hmap 0 [VString "a"; VUndefined; VString "b"]
             [VString "a!"; VUndefined; VString "b!"]
             (mkWorld [Arr [VString "a"; VUndefined; VString "b"]] []));
      [reflexivity | repeat constructor].
  - apply (Hthrow 0 [VString "a"] VNull [VString "b"] [VString "a!"]
             (LeafError "not a string")
             (mkWorld [Arr [VString "a"; VNull; VString "b"]] []));
      [reflexivity | repeat constructor | discriminate | reflexivity].
Defined.

(** ** Objects *)

(** lodash.defaults keeps an own property of [object] that is not
    undefined, and takes every other key from [source], but for the key
    __proto__ when [object] has not got it. *)
Lemma lookup_defaults_props (object source : gmap string val) (k : string) :
  lodash.defaults_props object source !! k =
    match object !! k with
    | Some o => Some (match source !! k with
                      | Some s => if is_undefined o then s else o
                      | None => o
                      end)
    | None => if String.eqb k "__proto__" then None else source !! k
    end.
Proof.
  unfold lodash.defaults_props. rewrite lookup_union_with.
  destruct (String.eqb_spec k "__proto__") as [->|Hk].
  - destruct (object !! "__proto__") as [o|] eqn:E.
    + now destruct (source !! "__proto__").
    + now rewrite lookup_delete_eq.
  - assert (Hsource : match object !! "__proto__" with
                      | Some _ => source
                      | None => delete "__proto__" source
                      end !! k = source !! k).
    { destruct (object !! "__proto__"); [reflexivity|].
      apply lookup_delete_ne. congruence. }
    rewrite Hsource. destruct (object !! k), (source !! k); reflexivity.
Qed.

Lemma defaults_props_parsed (a : string) (v : val) (props : gmap string val) :
  v <> VUndefined ->
  lodash.defaults_props (<[a := v]> ∅) props = <[a := v]> (delete "__proto__" props).
Proof.
  intros Hv. apply map_eq. intros k. rewrite lookup_defaults_props.
  destruct (decide (a = k)) as [->|Hne].
  - rewrite !lookup_insert_eq, (is_undefined_false v Hv). now destruct (props !! k).
  - rewrite !lookup_insert_ne, lookup_empty by assumption.
    destruct (String.eqb_spec k "__proto__") as [->|Hk].
    + now rewrite lookup_delete_eq.
    + rewrite lookup_delete_ne by congruence. reflexivity.
Qed.

Lemma defaults_props_omitted (a : string) (props : gmap string val) :
  props !! a = None ->
  lodash.defaults_props (<[a := VUndefined]> ∅) props
  = <[a := VUndefined]> (delete "__proto__" props).
Proof.
  intros Ha. apply map_eq. intros k. rewrite lookup_defaults_props.
  destruct (decide (a = k)) as [<-|Hne].
  - now rewrite !lookup_insert_eq, Ha.
  - rewrite !lookup_insert_ne, lookup_empty by assumption.
    destruct (String.eqb_spec k "__proto__") as [->|Hk].
    + now rewrite lookup_delete_eq.
    + rewrite lookup_delete_ne by congruence. reflexivity.
Qed.

(** What a plain object reads for a key that it has of its own. *)
Lemma plain_own (c : cell) (props : gmap string val) (read : string -> val)
    (k : string) (v : val) :
  plain c = Some (props, read) -> props !! k = Some v -> read k = v.
Proof.
  destruct c as [items|m|m|class]; intros [= <- <-] Hk;
    unfold get, get_own; now rewrite Hk.
Qed.

(** On a plain object, the transform of an ObjectParser is
    lodash.mapValues, then lodash.defaults. *)
Lemma ObjectParser_func_plain (keyToFunc : list (string * Parser)) (l : nat)
    (c : cell) (props : gmap string val) (read : string -> val) (w0 : world) :
  heap w0 !! l = Some c ->
  plain c = Some (props, read) ->
  ObjectParser_func keyToFunc (VRef l) w0
  = (picked <- lodash.mapValues keyToFunc (fun func key => call func (read key)) ;;
     lodash.defaults picked (VRef l)) w0.
Proof.
  intros Hl Hc. unfold ObjectParser_func. unfold bind at 1. unfold deref. rewrite Hl.
  destruct c as [items|m|m|class]; try discriminate Hc;
    injection Hc as <- <-; reflexivity.
Qed.

(** An assignment to the object that lodash.mapValues is filling. *)
Lemma baseAssignValue_picked (cells : list cell) (picked : gmap string val)
    (key : string) (v : val) (log : list (string * val)) :
  lodash.baseAssignValue (VRef (length cells)) key v (mkWorld (cells ++ [Obj picked]) log)
  = (Ok tt, mkWorld (cells ++ [Obj (<[key := v]> picked)]) log).
Proof.
  unfold lodash.baseAssignValue, bind, deref, store. cbn [heap calls].
  rewrite list_lookup_middle by reflexivity. cbn [heap calls].
  rewrite insert_app_r_alt by reflexivity. now rewrite Nat.sub_diag.
Qed.

(** lodash.defaults on the object that lodash.mapValues has filled. *)
Lemma defaults_picked (cells : list cell) (l : nat) (c : cell)
    (props picked : gmap string val) (read : string -> val) (log : list (string * val)) :
  cells !! l = Some c ->
  plain c = Some (props, read) ->
  lodash.defaults (VRef (length cells)) (VRef l) (mkWorld (cells ++ [Obj picked]) log)
  = (Ok (VRef (length cells)),
     mkWorld (cells ++ [Obj (lodash.defaults_props picked props)]) log).
Proof.
  intros Hl Hc. unfold lodash.defaults, bind, deref, store. cbn [heap calls].
  rewrite list_lookup_middle by reflexivity.
  rewrite lookup_app_l by (eapply lookup_lt_Some; eauto). rewrite Hl.
  destruct c as [items|m|m|class]; try discriminate Hc; injection Hc as <- <-;
    cbn [heap calls]; rewrite insert_app_r_alt by reflexivity;
    now rewrite Nat.sub_diag.
Qed.

(** The transform of an ObjectParser on a plain object, when the fields
    return and leave the heap alone: the result is the object that
    lodash.mapValues made, a new one, and the input's cell is read only. *)
Lemma ObjectParser_func_returns (keyToFunc : list (string * Parser)) (l : nat)
    (c : cell) (props picked : gmap string val) (read : string -> val)
    (w0 : world) (log : list (string * val)) :
  heap w0 !! l = Some c ->
  plain c = Some (props, read) ->
  lodash.mapValues_assign (VRef (length (heap w0))) keyToFunc
      (fun func key => call func (read key))
      (mkWorld (heap w0 ++ [Obj ∅]) (calls w0))
    = (Ok tt, mkWorld (heap w0 ++ [Obj picked]) log) ->
  ObjectParser_func keyToFunc (VRef l) w0
  = (Ok (VRef (length (heap w0))),
     mkWorld (heap w0 ++ [Obj (lodash.defaults_props picked props)]) log).
Proof.
  intros Hl Hc Hassign. rewrite (ObjectParser_func_plain _ l c props read w0 Hl Hc).
  unfold bind at 1. unfold lodash.mapValues, bind at 1, alloc.
  unfold bind at 1. rewrite Hassign. unfold ret.
  exact (defaults_picked (heap w0) l c props picked read log Hl Hc).
Qed.

(** When a field throws, so does the transform, there and then. *)
Lemma ObjectParser_func_throws (keyToFunc : list (string * Parser)) (l : nat)
    (c : cell) (props : gmap string val) (read : string -> val) (e : error)
    (w0 w1 : world) :
  heap w0 !! l = Some c ->
  plain c = Some (props, read) ->
  lodash.mapValues_assign (VRef (length (heap w0))) keyToFunc
      (fun func key => call func (read key))
      (mkWorld (heap w0 ++ [Obj ∅]) (calls w0))
    = (Throw e, w1) ->
  ObjectParser_func keyToFunc (VRef l) w0 = (Throw e, w1).
Proof.
  intros Hl Hc Hassign. rewrite (ObjectParser_func_plain _ l c props read w0 Hl Hc).
  unfold bind at 1. unfold lodash.mapValues, bind at 1, alloc.
  unfold bind at 1. now rewrite Hassign.
Qed.

(** The transform of an ObjectParser of one field whose Parser returns
    and leaves the heap alone. *)
Lemma ObjectParser_func_one_field (a : string) (field : Parser) (l : nat) (c : cell)
    (props : gmap string val) (read : string -> val) (v : val) (w0 : world)
    (log : list (string * val)) :
  heap w0 !! l = Some c ->
  plain c = Some (props, read) ->
  call field (read a) (mkWorld (heap w0 ++ [Obj ∅]) (calls w0))
    = (Ok v, mkWorld (heap w0 ++ [Obj ∅]) log) ->
  ObjectParser_func [(a, field)] (VRef l) w0
  = (Ok (VRef (length (heap w0))),
     mkWorld (heap w0 ++ [Obj (lodash.defaults_props (<[a := v]> ∅) props)]) log).
Proof.
  intros Hl Hc Hcall. apply (ObjectParser_func_returns _ l c props _ read w0 log Hl Hc).
  cbn [lodash.mapValues_assign]. unfold bind at 1. rewrite Hcall.
  unfold bind at 1. now rewrite baseAssignValue_picked.
Qed.

(** C1 fails as it is stated: with the schema {a: f} and the input
    {b: 2}, the result is a new object with the own property a, holding
    undefined, besides b. *)
Lemma omitted_field_counterexample :
  let input : gmap string val := {[ "b" := VNumber 2 ]} in
  let w0 := mkWorld [Obj input] [] in
  exists p,
    parse (SObject [("a", SFunction identity)]) no_options empty_world = (Ok p, empty_world)
    /\ call p (VRef 0) w0
       = (Ok (VRef 1), mkWorld [Obj input; Obj (<["a" := VUndefined]> input)] [])
    /\ input !! "a" = None
    /\ (<["a" := VUndefined]> input) !! "a" = Some VUndefined
    /\ <["a" := VUndefined]> input <> input.
Proof.
  intros input w0. eexists. split; [reflexivity|].
  assert (Ha : input !! "a" = None) by reflexivity.
  split; [reflexivity|]. split; [exact Ha|]. split; [apply lookup_insert_eq|].
  intros Heq. apply (f_equal (fun m => m !! "a")) in Heq.
  rewrite lookup_insert_eq, Ha in Heq. discriminate Heq.
Qed.

(** C1, amended: with the schema {a: f}, where the Parser of f is not
    required and has no default, and a plain input that has no own
    property a and inherits none of that name (input.a is undefined), the
    result is a new object that holds the own property a, holding
    undefined, and besides it every property of the input with the
    input's value, but for a property that is named __proto__, which is
    left out.  No function is called and the input is not written to. *)
Theorem object_parser_omitted_field :
  forall (a : string) (field : schema) (l : nat) (c : cell) (props : gmap string val)
         (read : string -> val) (w w0 : world),
    optional_field field ->
    heap w0 !! l = Some c ->
    plain c = Some (props, read) ->
    props !! a = None ->
    read a = VUndefined ->
    exists p out,
      parse (SObject [(a, field)]) no_options w = (Ok p, w)
      /\ call p (VRef l) w0
         = (Ok (VRef (length (heap w0))), mkWorld (heap w0 ++ [Obj out]) (calls w0))
      /\ out = <[a := VUndefined]> (delete "__proto__" props)
      /\ out !! a = Some VUndefined
      /\ (forall k, k <> a -> k <> "__proto__" -> out !! k = props !! k)
      /\ (a <> "__proto__" -> out !! "__proto__" = None)
      /\ (heap w0 ++ [Obj out]) !! l = Some c.
Proof.
  intros a field l c props read w w0 Hopt Hl Hc Ha Hread.
  assert (Hfield : exists q, parse field no_options w = (Ok q, w)
                             /\ forall w', call q VUndefined w' = (Ok VUndefined, w')).
  { destruct field as [this|f| | |]; try contradiction; eexists; split; reflexivity. }
  destruct Hfield as (q & Hq & Hcall).
  exists (mkParser (ObjectParser_func [(a, q)]) false VUndefined),
         (<[a := VUndefined]> (delete "__proto__" props)).
  split; [|split; [|split; [|split; [|split; [|split]]]]].
  - simpl. unfold bind. now rewrite Hq.
  - rewrite call_present by discriminate. cbn [func].
    rewrite (ObjectParser_func_one_field a q l c props read VUndefined w0 (calls w0) Hl Hc)
      by (rewrite Hread; apply Hcall).
    now rewrite (defaults_props_omitted a props Ha).
  - reflexivity.
  - apply lookup_insert_eq.
  - intros k Hk Hproto. rewrite lookup_insert_ne by congruence.
    now apply lookup_delete_ne.
  - intros Hproto. rewrite lookup_insert_ne by congruence. apply lookup_delete_eq.
  - rewrite lookup_app_l; [assumption | eapply lookup_lt_Some; eauto].
Qed.

Lemma object_parser_omitted_field_witness :
  optional_field (SFunction exclaim)
  /\ heap (mkWorld [Obj {[ "b" := VNumber 2 ]}] []) !! 0 = Some (Obj {[ "b" := VNumber 2 ]})
  /\ plain (Obj {[ "b" := VNumber 2 ]})
     = Some ({[ "b" := VNumber 2 ]}, get {[ "b" := VNumber 2 ]})
  /\ ({[ "b" := VNumber 2 ]} : gmap string val) !! "a" = None
  /\ get {[ "b" := VNumber 2 ]} "a" = VUndefined
  /\ exists p,
       parse (SObject [("a", SFunction exclaim)]) no_options empty_world = (Ok p, empty_world)
       /\ call p (VRef 0) (mkWorld [Obj {[ "b" := VNumber 2 ]}] [])
          = (Ok (VRef 1),
             mkWorld [Obj {[ "b" := VNumber 2 ]};
                      Obj (<["a" := VUndefined]> {[ "b" := VNumber 2 ]})] []).
Proof.
  split; [exact I|]. split; [reflexivity|]. split; [reflexivity|].
  split; [reflexivity|]. split; [reflexivity|].
  destruct (object_parser_omitted_field "a" (SFunction exclaim) 0
              (Obj {[ "b" := VNumber 2 ]}) {[ "b" := VNumber 2 ]}
              (get {[ "b" := VNumber 2 ]})
              empty_world (mkWorld [Obj {[ "b" := VNumber 2 ]}] [])
              I ltac:(reflexivity) ltac:(reflexivity) ltac:(reflexivity)
              ltac:(reflexivity))
    as (p & out & Hp & Hcall & -> & _).
  exists p. split; [exact Hp | exact Hcall].
Defined.

(** C6 fails as it is stated: with the schema {a: f} and the input that
    JSON.parse makes of {"a": 1, "__proto__": 5}, which has the two own
    properties a and __proto__, the result is {a: f(1)}: the property
    __proto__, which the schema does not declare, is not in it. *)
Lemma undeclared_proto_counterexample :
  let input : gmap string val := {[ "a" := VNumber 1; "__proto__" := VNumber 5 ]} in
  let w0 := mkWorld [Obj input] [] in
  exists p out,
    parse (SObject [("a", SFunction increment)]) no_options empty_world
      = (Ok p, empty_world)
    /\ call p (VRef 0) w0
       = (Ok (VRef 1), mkWorld [Obj input; Obj out] [("increment", VNumber 1)])
    /\ out = {[ "a" := VNumber 2 ]}
    /\ input !! "__proto__" = Some (VNumber 5)
    /\ out !! "__proto__" = None.
Proof.
  intros input w0. eexists. exists {[ "a" := VNumber 2 ]}.
  split; [reflexivity|]. split; [reflexivity|]. split; [reflexivity|].
  split; reflexivity.
Qed.

(** C6, amended: with the schema {a: f} and a plain input that has the
    own property a with a value on which f returns something other than
    undefined, the result is a new object in which a holds what f
    returned and every other property of the input is there with the
    input's value, but for a property that is named __proto__, which is
    left out; f is called once, on the input's a, and the input object is
    not written to. *)
Theorem object_parser_declared_and_undeclared :
  forall (a : string) (f : jsfun) (l : nat) (c : cell) (props : gmap string val)
         (read : string -> val) (va v : val) (w w0 : world),
    heap w0 !! l = Some c ->
    plain c = Some (props, read) ->
    props !! a = Some va ->
    va <> VUndefined ->
    fbody f va = Ok v ->
    v <> VUndefined ->
    exists p out,
      parse (SObject [(a, SFunction f)]) no_options w = (Ok p, w)
      /\ call p (VRef l) w0
         = (Ok (VRef (length (heap w0))),
            mkWorld (heap w0 ++ [Obj out]) (calls w0 ++ [(fname f, va)]))
      /\ out = <[a := v]> (delete "__proto__" props)
      /\ out !! a = Some v
      /\ (forall k, k <> a -> k <> "__proto__" -> out !! k = props !! k)
      /\ (a <> "__proto__" -> out !! "__proto__" = None)
      /\ (heap w0 ++ [Obj out]) !! l = Some c.
Proof.
  intros a f l c props read va v w w0 Hl Hc Ha Hva Hf Hv.
  exists (mkParser (ObjectParser_func [(a, leaf_Parser f)]) false VUndefined),
         (<[a := v]> (delete "__proto__" props)).
  assert (Hread : read a = va) by exact (plain_own c props read a va Hc Ha).
  split; [reflexivity|]. split; [|split; [|split; [|split; [|split]]]].
  - rewrite call_present by discriminate. cbn [func].
    rewrite (ObjectParser_func_one_field a (leaf_Parser f) l c props read v w0
               (calls w0 ++ [(fname f, va)]) Hl Hc).
    + now rewrite (defaults_props_parsed a v props Hv).
    + rewrite Hread, call_leaf, (is_undefined_false va Hva). unfold invoke. now rewrite Hf.
  - reflexivity.
  - apply lookup_insert_eq.
  - intros k Hk Hproto. rewrite lookup_insert_ne by congruence.
    now apply lookup_delete_ne.
  - intros Hproto. rewrite lookup_insert_ne by congruence. apply lookup_delete_eq.
  - rewrite lookup_app_l; [assumption | eapply lookup_lt_Some; eauto].
Qed.

Lemma object_parser_declared_and_undeclared_witness :
  heap (mkWorld [Obj {[ "a" := VNumber 1; "b" := VNumber 2 ]}] []) !! 0
    = Some (Obj {[ "a" := VNumber 1; "b" := VNumber 2 ]})
  /\ plain (Obj {[ "a" := VNumber 1; "b" := VNumber 2 ]})
     = Some ({[ "a" := VNumber 1; "b" := VNumber 2 ]},
             get {[ "a" := VNumber 1; "b" := VNumber 2 ]})
  /\ ({[ "a" := VNumber 1; "b" := VNumber 2 ]} : gmap string val) !! "a"
     = Some (VNumber 1)
  /\ VNumber 1 <> VUndefined
  /\ fbody increment (VNumber 1) = Ok (VNumber 2)
  /\ VNumber 2 <> VUndefined
  /\ exists p,
       parse (SObject [("a", SFunction increment)]) no_options empty_world
         = (Ok p, empty_world)
       /\ call p (VRef 0) (mkWorld [Obj {[ "a" := VNumber 1; "b" := VNumber 2 ]}] [])
          = (Ok (VRef 1),
             mkWorld [Obj {[ "a" := VNumber 1; "b" := VNumber 2 ]};
                      Obj (<["a" := VNumber 2]> {[ "a" := VNumber 1; "b" := VNumber 2 ]})]
                     [("increment", VNumber 1)]).
Proof.
  split; [reflexivity|]. split; [reflexivity|]. split; [reflexivity|].
  split; [discriminate|]. split; [reflexivity|]. split; [discriminate|].
  destruct (object_parser_declared_and_undeclared "a" increment 0
              (Obj {[ "a" := VNumber 1; "b" := VNumber 2 ]})
              {[ "a" := VNumber 1; "b" := VNumber 2 ]}
              (get {[ "a" := VNumber 1; "b" := VNumber 2 ]}) (VNumber 1) (VNumber 2)
              empty_world (mkWorld [Obj {[ "a" := VNumber 1; "b" := VNumber 2 ]}] [])
              ltac:(reflexivity) ltac:(reflexivity) ltac:(reflexivity)
              ltac:(discriminate) ltac:(reflexivity) ltac:(discriminate))
    as (p & out & Hp & Hcall & -> & _).
  exists p. split; [exact Hp | exact Hcall].
Defined.

(** * Further properties of type.js *)

(** ** Digits, pairs and bytes *)

Lemma hex_pairs_every (s : string) :
  hex_pairs s = every is_lower_hex s && Nat.even (String.length s).
Proof.
  induction s as [|c|c1 c2 rest IH] using string_pairs_ind.
  - reflexivity.
  - simpl. now destruct (is_lower_hex c).
  - cbn [hex_pairs every String.length Nat.even]. rewrite IH.
    destruct (is_lower_hex c1), (is_lower_hex c2); reflexivity.
Qed.

Lemma hex_pairs_append (a b : string) :
  hex_pairs a = true -> hex_pairs (String.append a b) = hex_pairs b.
Proof.
  induction a as [|c|c1 c2 rest IH] using string_pairs_ind; simpl.
  - reflexivity.
  - discriminate.
  - intros H. apply andb_prop in H as [H Hrest]. now rewrite H, (IH Hrest).
Qed.

Lemma hex_decode_append (a b : string) :
  hex_pairs a = true ->
  hex_decode (String.append a b) = hex_decode a ++ hex_decode b.
Proof.
  induction a as [|c|c1 c2 rest IH] using string_pairs_ind; simpl.
  - reflexivity.
  - discriminate.
  - intros H. apply andb_prop in H as [H Hrest]. apply andb_prop in H as [H1 H2].
    destruct (lower_hex_digit c1 H1) as (hi & -> & _).
    destruct (lower_hex_digit c2 H2) as (lo & -> & _).
    now rewrite (IH Hrest).
Qed.

Lemma length_hex_decode (s : string) :
  hex_pairs s = true -> String.length s = 2 * length (hex_decode s).
Proof.
  induction s as [|c|c1 c2 rest IH] using string_pairs_ind; simpl.
  - reflexivity.
  - discriminate.
  - intros H. apply andb_prop in H as [H Hrest]. apply andb_prop in H as [H1 H2].
    destruct (lower_hex_digit c1 H1) as (hi & -> & _).
    destruct (lower_hex_digit c2 H2) as (lo & -> & _).
    simpl. rewrite (IH Hrest). lia.
Qed.

(** The two digits of a byte, decoded, are the byte. *)
Lemma hex_decode_digits_of_byte (b : Byte.byte) (rest : string) :
  hex_decode (String (hex_char (Byte.to_N b / 16))
                (String (hex_char (Byte.to_N b mod 16)) rest))
  = b :: hex_decode rest.
Proof. destruct b; reflexivity. Qed.

Lemma digits_of_byte_lower_hex (b : Byte.byte) :
  is_lower_hex (hex_char (Byte.to_N b / 16)) = true
  /\ is_lower_hex (hex_char (Byte.to_N b mod 16)) = true.
Proof. destruct b; split; reflexivity. Qed.

Lemma hex_pairs_hex_encode (bytes : list Byte.byte) :
  hex_pairs (hex_encode bytes) = true.
Proof.
  induction bytes as [|b bytes IH]; simpl; [reflexivity|].
  destruct (digits_of_byte_lower_hex b) as [-> ->]. exact IH.
Qed.

Lemma length_hex_encode (bytes : list Byte.byte) :
  String.length (hex_encode bytes) = 2 * length bytes.
Proof. induction bytes as [|b bytes IH]; simpl; [reflexivity | rewrite IH; lia]. Qed.

Lemma hex_decode_encode (bytes : list Byte.byte) :
  hex_decode (hex_encode bytes) = bytes.
Proof.
  induction bytes as [|b bytes IH]; [reflexivity|].
  cbn [hex_encode]. now rewrite hex_decode_digits_of_byte, IH.
Qed.

Lemma lower_char_lower_hex (c : ascii) :
  is_lower_hex c = true -> lower_char c = c.
Proof.
  destruct c as [[] [] [] [] [] [] [] []]; intros H;
    try (vm_compute in H; discriminate H); reflexivity.
Qed.

Lemma toLowerCase_lower_hex (s : string) :
  every is_lower_hex s = true -> toLowerCase s = s.
Proof.
  induction s as [|c s IH]; simpl; [reflexivity|].
  intros H. apply andb_prop in H as [Hc Hs].
  now rewrite (lower_char_lower_hex c Hc), (IH Hs).
Qed.

Lemma startsWith_0x_shape (s : string) :
  startsWith_0x s = true -> s = String "0" (String "x" (substring2 s)).
Proof.
  destruct s as [|c1 [|c2 rest]]; try discriminate.
  - destruct c1 as [[] [] [] [] [] [] [] []]; discriminate.
  - destruct c1 as [[] [] [] [] [] [] [] []]; try discriminate;
      destruct c2 as [[] [] [] [] [] [] [] []]; try discriminate.
    reflexivity.
Qed.

Lemma every_pad_even (s : string) :
  every is_lower_hex (pad_even s) = every is_lower_hex s.
Proof. unfold pad_even. now destruct (Nat.odd (String.length s)). Qed.

Lemma even_length_pad_even (s : string) :
  Nat.even (String.length (pad_even s)) = true.
Proof.
  unfold pad_even. destruct (Nat.odd (String.length s)) eqn:E.
  - cbn [String.length]. now rewrite Nat.even_succ.
  - unfold Nat.odd in E. now destruct (Nat.even (String.length s)).
Qed.

Section FormatterProperties.

Variable Number_toString16 : float -> string.
Variable BigNumber_toString16 : string -> string.
Variable ToString : val -> string.
Variable BigNumber_of : val -> string.

(** X1: Hex of a string, in full.  The string is lower-cased and a
    leading 0x is set aside; what is left must be hexadecimal digits, and
    Hex returns them behind 0x, with a 0 in front of them when their
    number is odd.  Otherwise Hex throws, showing the string as given. *)
Theorem Hex_of_string_digits (s : string) :
  Hex Number_toString16 BigNumber_toString16 ToString (VString s)
  = if every is_lower_hex (strip_0x (toLowerCase s))
    then Ok (String.append "0x" (pad_even (strip_0x (toLowerCase s))))
    else Throw (NotHexString s).
Proof.
  unfold Hex, Hex_of_string, isHex. cbn [test_string].
  destruct (hex_regex s) eqn:Hs.
  - destruct (hex_regex_shape s Hs) as (digits & -> & Hd).
    rewrite hex_pairs_every in Hd. apply andb_prop in Hd as [Hevery Heven].
    assert (Hlow : toLowerCase (String "0" (String "x" digits))
                   = String "0" (String "x" digits)).
    { cbn [toLowerCase]. now rewrite (toLowerCase_lower_hex digits Hevery). }
    rewrite Hlow. unfold strip_0x. cbn [startsWith_0x substring2].
    rewrite Hevery. unfold pad_even, Nat.odd. now rewrite Heven.
  - set (low := toLowerCase s).
    assert (Hshape : (if startsWith_0x low then low else String.append "0x" low)
                     = String "0" (String "x" (strip_0x low))).
    { unfold strip_0x. destruct (startsWith_0x low) eqn:E.
      - now apply startsWith_0x_shape.
      - reflexivity. }
    rewrite Hshape. cbn [String.length substring2]. rewrite Nat.odd_succ_succ.
    assert (Hpad : (if Nat.odd (String.length (strip_0x low))
                    then String.append "0x0" (strip_0x low)
                    else String "0" (String "x" (strip_0x low)))
                   = String "0" (String "x" (pad_even (strip_0x low)))).
    { unfold pad_even. now destruct (Nat.odd (String.length (strip_0x low))). }
    rewrite Hpad. cbn [hex_regex].
    rewrite hex_pairs_every, every_pad_even, even_length_pad_even, andb_true_r.
    reflexivity.
Qed.

Lemma Hex_canonical_id (h : string) :
  isHex ToString (VString h) = true ->
  Hex Number_toString16 BigNumber_toString16 ToString (VString h) = Ok h.
Proof. intros H. unfold Hex, Hex_of_string. now rewrite H. Qed.

Lemma Hex_result_isHex (value : val) (hex : string) :
  Hex Number_toString16 BigNumber_toString16 ToString value = Ok hex ->
  isHex ToString (VString hex) = true.
Proof.
  intros H.
  assert (Hstr : forall s, Hex_of_string ToString s = Ok hex ->
                           isHex ToString (VString hex) = true).
  { intros s. unfold Hex_of_string.
    destruct (isHex ToString (VString s)) eqn:E1.
    - now intros [= <-].
    - match goal with |- context [isHex ToString (VString ?t)] =>
        destruct (isHex ToString (VString t)) eqn:E2 end.
      + now intros [= <-].
      + discriminate. }
  destruct value; cbn [Hex] in H; try (exact (Hstr _ H)).
  - now injection H as <-.
  - injection H as <-. unfold isHex. cbn [test_string].
    change (String.append "0x" (hex_encode bytes))
      with (String "0" (String "x" (hex_encode bytes))).
    apply hex_pairs_hex_encode.
Qed.

(** X2: whatever the argument, what Hex returns is a string that
    Hex.isHex accepts, and Hex returns it unchanged when given it. *)
Theorem Hex_returns_canonical (value : val) (hex : string) :
  Hex Number_toString16 BigNumber_toString16 ToString value = Ok hex ->
  isHex ToString (VString hex) = true
  /\ Hex Number_toString16 BigNumber_toString16 ToString (VString hex) = Ok hex.
Proof.
  intros H. pose proof (Hex_result_isHex value hex H) as Hcanon.
  split; [exact Hcanon | now apply Hex_canonical_id].
Qed.

(** X3: Hex.toBuffer of what Hex makes of a Buffer is the Buffer, byte
    for byte. *)
Theorem toBuffer_of_Hex_of_Buffer (bytes : list Byte.byte) :
  exists hex,
    Hex Number_toString16 BigNumber_toString16 ToString (VBuffer bytes) = Ok hex
    /\ toBuffer ToString (VString hex) = Ok bytes.
Proof.
  eexists. split; [reflexivity|].
  unfold toBuffer, isHex. cbn [test_string].
  change (String.append "0x" (hex_encode bytes))
    with (String "0" (String "x" (hex_encode bytes))).
  cbn [hex_regex substring2].
  now rewrite hex_pairs_hex_encode, hex_decode_encode.
Qed.

(** X4: Hex.toBuffer of a string returns exactly when Hex.isHex accepts
    the string, and throws otherwise; the Buffer has one byte for every
    two characters after the 0x. *)
Theorem toBuffer_of_string (h : string) :
  (isHex ToString (VString h) = true ->
   exists bytes, toBuffer ToString (VString h) = Ok bytes
                 /\ String.length h = 2 + 2 * length bytes)
  /\ (isHex ToString (VString h) = false ->
      toBuffer ToString (VString h) = Throw (NotHexString h)).
Proof.
  split; intros H; unfold toBuffer; rewrite H; cbn [negb test_string].
  - eexists. split; [reflexivity|].
    unfold isHex in H. cbn [test_string] in H.
    destruct (hex_regex_shape h H) as (digits & -> & Hd).
    cbn [substring2 String.length]. rewrite (length_hex_decode digits Hd). lia.
  - reflexivity.
Qed.

(** ** Hex.concat *)

Lemma isHex_shape (h : string) :
  isHex ToString (VString h) = true ->
  exists digits, h = String "0" (String "x" digits) /\ hex_pairs digits = true.
Proof. intros H. now apply hex_regex_shape. Qed.

Lemma first_not_hex_none (values : list val) :
  Forall (fun v => isHex ToString v = true) values ->
  forall index, first_not_hex ToString index values = None.
Proof.
  induction 1 as [|v values Hv _ IH]; intros index; simpl; [reflexivity|].
  rewrite Hv. simpl. apply IH.
Qed.

Lemma first_not_hex_found (pre : list val) (v : val) (post : list val) :
  Forall (fun v => isHex ToString v = true) pre ->
  isHex ToString v = false ->
  forall index,
    first_not_hex ToString index (pre ++ v :: post) = Some (index + length pre, v).
Proof.
  intros Hpre Hv. induction Hpre as [|v0 pre Hv0 _ IH]; intros index; simpl.
  - rewrite Hv. simpl. now rewrite Nat.add_0_r.
  - rewrite Hv0. simpl. rewrite IH. now rewrite Nat.add_succ_r.
Qed.

Lemma joined_digits_canonical (hs : list string) :
  Forall (fun h => isHex ToString (VString h) = true) hs ->
  joined_digits Number_toString16 BigNumber_toString16 ToString (map VString hs)
  = Ok (join (map substring2 hs)).
Proof.
  induction 1 as [|h hs Hh _ IH]; [reflexivity|].
  cbn [map joined_digits join]. now rewrite (Hex_canonical_id h Hh), IH.
Qed.

Lemma hex_pairs_join (hs : list string) :
  Forall (fun h => isHex ToString (VString h) = true) hs ->
  hex_pairs (join (map substring2 hs)) = true.
Proof.
  induction 1 as [|h hs Hh _ IH]; [reflexivity|].
  destruct (isHex_shape h Hh) as (digits & -> & Hd).
  cbn [map join substring2]. now rewrite (hex_pairs_append digits _ Hd).
Qed.

Lemma hex_decode_join (hs : list string) (buffers : list (list Byte.byte)) :
  Forall2 (fun h bytes => toBuffer ToString (VString h) = Ok bytes) hs buffers ->
  hex_decode (join (map substring2 hs)) = List.concat buffers.
Proof.
  induction 1 as [|h bytes hs buffers Hh _ IH]; [reflexivity|].
  unfold toBuffer in Hh.
  destruct (isHex ToString (VString h)) eqn:E; [|discriminate Hh].
  cbn [negb] in Hh. injection Hh as <-.
  destruct (isHex_shape h E) as (digits & -> & Hd).
  cbn [map join substring2 List.concat].
  now rewrite (hex_decode_append digits _ Hd), IH.
Qed.

(** X5: Hex.concat of strings that Hex.isHex accepts returns 0x followed
    by their digits, in order.  The result is accepted by Hex.isHex, and
    its Buffer is the Buffers of the strings, one after the other. *)
Theorem Hex_concat_of_canonical (hs : list string) :
  Forall (fun h => isHex ToString (VString h) = true) hs ->
  Hex_concat Number_toString16 BigNumber_toString16 ToString (map VString hs)
    = Returned (String.append "0x" (join (map substring2 hs)))
  /\ isHex ToString (VString (String.append "0x" (join (map substring2 hs)))) = true
  /\ forall buffers,
       Forall2 (fun h bytes => toBuffer ToString (VString h) = Ok bytes) hs buffers ->
       toBuffer ToString (VString (String.append "0x" (join (map substring2 hs))))
       = Ok (List.concat buffers).
Proof.
  intros Hhs.
  assert (Hcanon : isHex ToString
                     (VString (String.append "0x" (join (map substring2 hs)))) = true).
  { unfold isHex. cbn [test_string].
    change (String.append "0x" (join (map substring2 hs)))
      with (String "0" (String "x" (join (map substring2 hs)))).
    cbn [hex_regex]. now apply hex_pairs_join. }
  split; [|split; [exact Hcanon|]].
  - unfold Hex_concat. rewrite first_not_hex_none.
    + now rewrite (joined_digits_canonical hs Hhs).
    + apply Forall_map. exact Hhs.
  - intros buffers Hb. unfold toBuffer. rewrite Hcanon. cbn [negb].
    change (String.append "0x" (join (map substring2 hs)))
      with (String "0" (String "x" (join (map substring2 hs)))).
    cbn [substring2]. now rewrite (hex_decode_join hs buffers Hb).
Qed.

(** X6: Hex.concat checks every value before it joins any: it throws for
    the first value that Hex.isHex rejects, naming its index, whatever
    comes after it. *)
Theorem Hex_concat_first_rejected (pre : list val) (v : val) (post : list val) :
  Forall (fun v => isHex ToString v = true) pre ->
  isHex ToString v = false ->
  Hex_concat Number_toString16 BigNumber_toString16 ToString (pre ++ v :: post)
  = Thrown (NotHexAt (length pre) v).
Proof.
  intros Hpre Hv. unfold Hex_concat.
  now rewrite (first_not_hex_found pre v post Hpre Hv 0).
Qed.

(** ** The formatters of fixed length and EpochNumber *)

(** A string that Hex.isHex accepts and that has 2 + 2n characters is
    the hexadecimal form of n bytes. *)
Lemma canonical_bytes (hex : string) (n : nat) :
  isHex ToString (VString hex) = true ->
  String.length hex = 2 + 2 * n ->
  exists bytes, toBuffer ToString (VString hex) = Ok bytes /\ length bytes = n.
Proof.
  intros Hhex Hlen. unfold toBuffer. rewrite Hhex. cbn [negb].
  eexists. split; [reflexivity|].
  destruct (isHex_shape hex Hhex) as (digits & -> & Hd).
  cbn [substring2 String.length] in *.
  pose proof (length_hex_decode digits Hd). lia.
Qed.

Ltac fixed_length_returned H :=
  match type of H with
  | match ?hexed with _ => _ end = Returned ?hex =>
      let E := fresh "E" in let L := fresh "L" in
      destruct hexed as [h|e] eqn:E; [|discriminate H];
      match type of H with
      | (if negb ?test then _ else _) = _ =>
          destruct test eqn:L; [|discriminate H]
      end;
      cbn [negb] in H; injection H as <-;
      apply Nat.eqb_eq in L;
      pose proof (Hex_result_isHex _ _ E) as Hcanon;
      split; [exact Hcanon|]; split;
      [ apply (canonical_bytes h _ Hcanon); exact L
      | rewrite (Hex_canonical_id h Hcanon);
        apply Nat.eqb_eq in L; rewrite L; reflexivity ]
  end.

(** X7: what Address returns is a string that Hex.isHex accepts, the
    hexadecimal form of exactly 20 bytes, and Address returns it unchanged
    when given it.  Of a Buffer, Address returns the hexadecimal form when
    the Buffer has 20 bytes, and throws otherwise. *)
Theorem Address_is_twenty_bytes :
  (forall value hex,
      Address Number_toString16 BigNumber_toString16 ToString value = Returned hex ->
      isHex ToString (VString hex) = true
      /\ (exists bytes, toBuffer ToString (VString hex) = Ok bytes /\ length bytes = 20)
      /\ Address Number_toString16 BigNumber_toString16 ToString (VString hex)
         = Returned hex)
  /\ (forall bytes,
        Address Number_toString16 BigNumber_toString16 ToString (VBuffer bytes)
        = if Nat.eqb (length bytes) 20
          then Returned (String.append "0x" (hex_encode bytes))
          else Thrown (DoNotMatch "Address" (VBuffer bytes))).
Proof.
  split.
  - intros value hex H. unfold Address in H |- *. fixed_length_returned H.
  - intros bytes. unfold Address. cbn [Hex].
    change (String.append "0x" (hex_encode bytes))
      with (String "0" (String "x" (hex_encode bytes))).
    cbn [String.length]. rewrite length_hex_encode.
    destruct (Nat.eqb (length bytes) 20) eqn:E.
    + apply Nat.eqb_eq in E. rewrite E. reflexivity.
    + apply Nat.eqb_neq in E.
      destruct (Nat.eqb (S (S (2 * length bytes))) (2 + 40)) eqn:E'; [|reflexivity].
      apply Nat.eqb_eq in E'. lia.
Qed.

(** X8: what PrivateKey, BlockHash and TxHash return is a string that
    Hex.isHex accepts, the hexadecimal form of exactly 32 bytes, and each
    returns it unchanged when given it. *)
Theorem hashes_are_thirty_two_bytes :
  forall F,
    In F [ PrivateKey Number_toString16 BigNumber_toString16 ToString;
           BlockHash Number_toString16 BigNumber_toString16 ToString;
           TxHash Number_toString16 BigNumber_toString16 ToString ] ->
    forall value hex,
      F value = Returned hex ->
      isHex ToString (VString hex) = true
      /\ (exists bytes, toBuffer ToString (VString hex) = Ok bytes /\ length bytes = 32)
      /\ F (VString hex) = Returned hex.
Proof.
  intros F HF value hex H.
  destruct HF as [<-|[<-|[<-|[]]]].
  - unfold PrivateKey in H |- *. fixed_length_returned H.
  - unfold BlockHash in H |- *. fixed_length_returned H.
  - unfold TxHash in H |- *. fixed_length_returned H.
Qed.

(** X9: EpochNumber of a string that is, whatever its case, one of
    earliest, latest_state and latest_mined is that name in lower case,
    and nothing is converted.  Whatever else EpochNumber returns is a
    string that Hex.isHex accepts.  A number is formatted as Hex formats
    it. *)
Theorem EpochNumber_names_and_numbers :
  (forall s,
      In (toLowerCase s) [EARLIEST; LATEST_STATE; LATEST_MINED] ->
      EpochNumber Number_toString16 BigNumber_toString16 ToString BigNumber_of
        (VString s) = Ok (toLowerCase s))
  /\ (forall value r,
        EpochNumber Number_toString16 BigNumber_toString16 ToString BigNumber_of value
          = Ok r ->
        In r [EARLIEST; LATEST_STATE; LATEST_MINED]
        \/ isHex ToString (VString r) = true)
  /\ (forall n,
        EpochNumber Number_toString16 BigNumber_toString16 ToString BigNumber_of
          (VNumber n)
        = Hex Number_toString16 BigNumber_toString16 ToString (VNumber n)).
Proof.
  split; [|split].
  - intros s Hs. unfold EpochNumber.
    assert (E : existsb (String.eqb (toLowerCase s))
                  [EARLIEST; LATEST_STATE; LATEST_MINED] = true).
    { apply existsb_exists. exists (toLowerCase s). split; [exact Hs|].
      apply String.eqb_refl. }
    now rewrite E.
  - intros value r H. unfold EpochNumber in H.
    assert (Hnum : forall v, Hex_fromNumber Number_toString16 BigNumber_toString16
                               ToString BigNumber_of v = Ok r ->
                             isHex ToString (VString r) = true).
    { intros v Hv. unfold Hex_fromNumber in Hv. exact (Hex_result_isHex _ _ Hv). }
    destruct value; try (right; exact (Hnum _ H)).
    destruct (existsb (String.eqb (toLowerCase s))
                [EARLIEST; LATEST_STATE; LATEST_MINED]) eqn:E.
    + left. injection H as <-.
      apply existsb_exists in E as (name & Hin & Heq).
      apply String.eqb_eq in Heq. now rewrite Heq.
    + right. exact (Hnum _ H).
  - reflexivity.
Qed.

End FormatterProperties.

(** * Further properties of the parser *)

(** ** How the combinators chain *)

(** X10: on an input other than undefined, p.parse(g) passes what p
    returns to g, in the world p left, and returns what g returns; what p
    returns is passed on even when it is undefined.  When p throws, g is
    not called and the throw goes through. *)
Theorem parse_method_chains :
  forall (p : Parser) (g : jsfun) (x : val) (w : world),
    x <> VUndefined ->
    exists q, Parser_parse p g w = (Ok q, w)
      /\ (forall w0 v w1, call p x w0 = (Ok v, w1) -> call q x w0 = invoke g v w1)
      /\ (forall w0 e w1, call p x w0 = (Throw e, w1) -> call q x w0 = (Throw e, w1)).
Proof.
  intros p g x w Hx. eexists. split; [reflexivity|].
  split; intros w0 ? w1 Hp; rewrite (call_present _ x Hx); cbn [func];
    unfold bind; now rewrite Hp.
Qed.

Lemma parse_method_chains_witness :
  VString "a" <> VUndefined
  /\ exists q,
       Parser_parse (leaf_Parser exclaim) exclaim empty_world = (Ok q, empty_world)
       /\ call q (VString "a") empty_world
          = (Ok (VString "a!!"),
             mkWorld [] [("exclaim", VString "a"); ("exclaim", VString "a!")])
       /\ call q VNull empty_world
          = (Throw (LeafError "not a string"), mkWorld [] [("exclaim", VNull)]).
Proof.
  split; [discriminate|].
  destruct (parse_method_chains (leaf_Parser exclaim) exclaim (VString "a") empty_world
              ltac:(discriminate)) as (q & Hq & Hok & _).
  exists q. split; [exact Hq|]. split.
  - rewrite (Hok empty_world (VString "a!") (mkWorld [] [("exclaim", VString "a")]));
      reflexivity.
  - destruct (parse_method_chains (leaf_Parser exclaim) exclaim VNull empty_world
                ltac:(discriminate)) as (q' & Hq' & _ & Hthrow).
    assert (q' = q) as -> by congruence.
    apply (Hthrow empty_world). reflexivity.
Defined.

(** X11: parse(f).validate(pred).or(g), the way a union is written.  On
    an input x other than undefined on which f returns v: when pred(v) is
    truthy the result is v and g is not called; when it is falsy, g is
    called on x, after f and pred, and its result is the result. *)
Theorem validate_or_falls_back :
  forall (f pred g : jsfun) (x v b : val) (w : world),
    x <> VUndefined ->
    fbody f x = Ok v ->
    fbody pred v = Ok b ->
    exists p q u,
      parse (SFunction f) no_options w = (Ok p, w)
      /\ Parser_validate p pred w = (Ok q, w)
      /\ Parser_or q g w = (Ok u, w)
      /\ forall w0,
           call u x w0
           = if truthy b
             then (Ok v, mkWorld (heap w0) (calls w0 ++ [(fname f, x); (fname pred, v)]))
             else (fbody g x,
                   mkWorld (heap w0)
                     (calls w0 ++ [(fname f, x); (fname pred, v); (fname g, x)])).
Proof.
  intros f pred g x v b w Hx Hf Hpred. do 3 eexists.
  split; [reflexivity|]. split; [reflexivity|]. split; [reflexivity|]. intros w0.
  rewrite (call_present _ x Hx). cbn [func]. unfold try_catch.
  rewrite (call_present _ x Hx). cbn [func]. unfold bind.
  rewrite (call_present _ x Hx). cbn [func]. unfold invoke at 1 2. rewrite Hf. cbn.
  rewrite Hpred. destruct (truthy b); cbn.
  - now rewrite <- app_assoc.
  - unfold invoke. cbn. now rewrite <- !app_assoc.
Qed.

Lemma validate_or_falls_back_witness :
  VString "a" <> VUndefined
  /\ fbody exclaim (VString "a") = Ok (VString "a!")
  /\ fbody (constant "pred" (VBool false)) (VString "a!") = Ok (VBool false)
  /\ exists p q u,
       parse (SFunction exclaim) no_options empty_world = (Ok p, empty_world)
       /\ Parser_validate p (constant "pred" (VBool false)) empty_world
          = (Ok q, empty_world)
       /\ Parser_or q (constant "g" VNull) empty_world = (Ok u, empty_world)
       /\ call u (VString "a") empty_world
          = (Ok VNull,
             mkWorld [] [("exclaim", VString "a"); ("pred", VString "a!");
                         ("g", VString "a")]).
Proof.
  split; [discriminate|]. split; [reflexivity|]. split; [reflexivity|].
  destruct (validate_or_falls_back exclaim (constant "pred" (VBool false))
              (constant "g" VNull) (VString "a") (VString "a!") (VBool false) empty_world
              ltac:(discriminate) eq_refl eq_refl) as (p & q & u & Hp & Hq & Hu & Hcall).
  exists p, q, u. split; [exact Hp|]. split; [exact Hq|]. split; [exact Hu|].
  exact (Hcall empty_world).
Defined.

(** ** Which descriptors parse accepts *)

Lemma schema_nested_ind (P : schema -> Prop) :
  (forall this, P (SParser this)) ->
  (forall f, P (SFunction f)) ->
  (forall items, Forall P items -> P (SArray items)) ->
  (forall fields, Forall (fun kv => P (snd kv)) fields -> P (SObject fields)) ->
  (forall typeof, P (SOther typeof)) ->
  forall s, P s.
Proof.
  intros HP HF HA HO HX. fix IH 1. intros [this|f|items|fields|typeof].
  - apply HP.
  - apply HF.
  - apply HA. induction items as [|i items IHi]; constructor; [apply IH | exact IHi].
  - apply HO. induction fields as [|[k v] fields IHf]; constructor; [apply IH | exact IHf].
  - apply HX.
Qed.

Lemma parse_SObject (fields : list (string * schema)) (options : Options) :
  parse (SObject fields) options
  = (keyToFunc <- parse_fields fields ;; new_ObjectParser keyToFunc options).
Proof. reflexivity. Qed.

Lemma parse_SArray (first : schema) (rest : list schema) (options : Options) :
  parse (SArray (first :: rest)) options
  = (p <- parse first no_options ;; new_ArrayParser (call p) options).
Proof. reflexivity. Qed.

Lemma parse_fields_cons (key : string) (v : schema) (rest : list (string * schema)) :
  parse_fields ((key, v) :: rest)
  = (p <- parse v no_options ;; ps <- parse_fields rest ;; ret ((key, p) :: ps)).
Proof. reflexivity. Qed.

Lemma supported_SObject (fields : list (string * schema)) :
  supported (SObject fields) = forallb (fun kv => supported (snd kv)) fields.
Proof.
  induction fields as [|[k v] fields IH]; [reflexivity|].
  cbn [forallb snd]. rewrite <- IH. reflexivity.
Qed.

(** The values of an object literal compile, all of them, or the first
    that is not supported throws. *)
Lemma parse_fields_supported (fields : list (string * schema)) :
  Forall (fun kv => forall w,
            if supported (snd kv)
            then exists p, parse (snd kv) no_options w = (Ok p, w)
                           /\ required p = false /\ default p = VUndefined
            else exists typeof,
                   parse (snd kv) no_options w
                   = (Throw (UnsupportedSchemaType typeof), w)) fields ->
  forall w,
    if forallb (fun kv => supported (snd kv)) fields
    then exists ps, parse_fields fields w = (Ok ps, w)
    else exists typeof, parse_fields fields w = (Throw (UnsupportedSchemaType typeof), w).
Proof.
  induction 1 as [|[k v] fields Hv _ IH]; intros w.
  - cbn. eexists. reflexivity.
  - cbn [forallb snd] in *. rewrite parse_fields_cons. unfold bind.
    specialize (Hv w). specialize (IH w).
    destruct (supported v); cbn [andb].
    + destruct Hv as (p & -> & _).
      destruct (forallb (fun kv => supported (snd kv)) fields).
      * destruct IH as (ps & ->). eexists. reflexivity.
      * destruct IH as (typeof & ->). eexists. reflexivity.
    + destruct Hv as (typeof & ->). eexists. reflexivity.
Qed.

(** X12: parse with no options returns a Parser exactly for the
    descriptors that are a function, a Parser, an array literal whose
    first entry is such a descriptor, or an object literal all of whose
    values are; it throws "unknown schema type" for every other one, an
    empty array literal among them.  Neither touches the world, and the
    Parser returned is not required and has no default. *)
Theorem parse_accepts_supported :
  forall (s : schema) (w : world),
    if supported s
    then exists p, parse s no_options w = (Ok p, w)
                   /\ required p = false /\ default p = VUndefined
    else exists typeof, parse s no_options w = (Throw (UnsupportedSchemaType typeof), w).
Proof.
  induction s as [this|f|items IH|fields IH|typeof] using schema_nested_ind; intros w.
  - cbn. eexists. repeat split.
  - cbn. eexists. repeat split.
  - destruct items as [|first rest].
    + cbn. eexists. reflexivity.
    + apply Forall_cons in IH as [IHfirst _]. specialize (IHfirst w).
      rewrite parse_SArray. cbn [supported]. destruct (supported first).
      * destruct IHfirst as (p & Hp & _). unfold bind. rewrite Hp.
        eexists. repeat split.
      * destruct IHfirst as (typeof & Hp). unfold bind. rewrite Hp.
        eexists. reflexivity.
  - rewrite supported_SObject, parse_SObject. unfold bind.
    pose proof (parse_fields_supported fields IH w) as Hfields.
    destruct (forallb (fun kv => supported (snd kv)) fields).
    + destruct Hfields as (ps & ->). eexists. repeat split.
    + destruct Hfields as (typeof & ->). eexists. reflexivity.
  - cbn. eexists. reflexivity.
Qed.

Example parse_accepts_supported_examples :
  (exists p, parse (SObject [("list", SArray [SFunction exclaim; SOther "number"])])
               no_options empty_world = (Ok p, empty_world))
  /\ parse (SObject [("a", SFunction exclaim); ("b", SArray [])]) no_options empty_world
     = (Throw (UnsupportedSchemaType "undefined"), empty_world)
  /\ parse (SArray [SOther "string"]) no_options empty_world
     = (Throw (UnsupportedSchemaType "string"), empty_world).
Proof. split; [eexists; reflexivity | split; reflexivity]. Qed.

(** ** What a compiled Parser leaves of the heap *)

Lemma extends_refl (w : world) : extends w w.
Proof. exists []. now rewrite app_nil_r. Qed.

Lemma extends_trans (w1 w2 w3 : world) : extends w1 w2 -> extends w2 w3 -> extends w1 w3.
Proof. intros [c1 H1] [c2 H2]. exists (c1 ++ c2). now rewrite H2, H1, app_assoc. Qed.

Lemma extends_lookup (w w' : world) (l : nat) (c : cell) :
  extends w w' -> heap w !! l = Some c -> heap w' !! l = Some c.
Proof.
  intros [cells ->] H. rewrite lookup_app_l; [exact H | eapply lookup_lt_Some; eauto].
Qed.

Lemma extends_length (w w' : world) :
  extends w w' -> length (heap w) <= length (heap w').
Proof. intros [cells ->]. rewrite length_app. lia. Qed.

(** A write to a cell that [w0] has not got keeps what [w0] has. *)
Lemma extends_store (w0 w : world) (r : nat) (c : cell) :
  length (heap w0) <= r ->
  extends w0 w ->
  extends w0 (mkWorld (<[r := c]> (heap w)) (calls w)).
Proof.
  intros Hr [cells Hcells]. exists (<[r - length (heap w0) := c]> cells).
  cbn [heap]. rewrite Hcells. now apply insert_app_r_alt.
Qed.

Lemma allocates_only_invoke (f : jsfun) : allocates_only (invoke f).
Proof. intros x w. exists []. cbn. now rewrite app_nil_r. Qed.

Lemma allocates_only_call (this : Parser) :
  allocates_only (func this) -> allocates_only (call this).
Proof.
  intros H x w. unfold call.
  destruct (is_undefined (if is_undefined x then default this else x)).
  - destruct (required this); apply extends_refl.
  - apply H.
Qed.

Lemma mapM_extends (f : val -> M val) (items : list val) :
  allocates_only f -> forall w, extends w (snd (mapM f items w)).
Proof.
  intros Hf. induction items as [|a items IH]; intros w; cbn [mapM].
  - apply extends_refl.
  - unfold bind. pose proof (Hf a w) as Ha.
    destruct (f a w) as [[b|e] w1]; cbn [snd] in *; [|exact Ha].
    pose proof (IH w1) as Hrest.
    destruct (mapM f items w1) as [[bs|e] w2]; cbn [snd] in *;
      eapply extends_trans; eauto.
Qed.

Lemma allocates_only_ArrayParser_func (f : val -> M val) :
  allocates_only f -> allocates_only (ArrayParser_func f).
Proof.
  intros Hf x w. unfold ArrayParser_func, bind, deref.
  destruct (match x with VRef l => heap w !! l | _ => None end) as [[items| | |]|];
    try apply extends_refl.
  pose proof (mapM_extends f items Hf w) as H.
  destruct (mapM f items w) as [[out|e] w1]; cbn [snd] in *; [|exact H].
  eapply extends_trans; [exact H|]. exists [Arr out]. reflexivity.
Qed.

(** The array that [map] returns is a new one. *)
Lemma returns_new_cell_ArrayParser_func (f : val -> M val) :
  allocates_only f -> returns_new_cell (ArrayParser_func f).
Proof.
  intros Hf x w v w'. unfold ArrayParser_func, bind, deref.
  destruct (match x with VRef l => heap w !! l | _ => None end) as [[items| | |]|];
    try discriminate.
  pose proof (mapM_extends f items Hf w) as H.
  destruct (mapM f items w) as [[out|e] w1]; cbn [snd] in *; [|discriminate].
  unfold alloc. intros [= <- <-]. exists (length (heap w1)), (Arr out).
  split; [reflexivity|]. split.
  - apply lookup_ge_None_2. now apply extends_length.
  - cbn [heap]. now apply list_lookup_middle.
Qed.

(** An assignment to the object that lodash.mapValues is filling, a cell
    that [w0] has not got. *)
Lemma baseAssignValue_extends (w0 w : world) (r : nat) (key : string) (v : val) :
  length (heap w0) <= r ->
  extends w0 w ->
  exists w', lodash.baseAssignValue (VRef r) key v w = (Ok tt, w')
             /\ extends w0 w' /\ length (heap w') = length (heap w).
Proof.
  intros Hr Hw. unfold lodash.baseAssignValue, bind, deref, store, ret.
  destruct (heap w !! r) as [[items|props|props|class]|]; eexists;
    (split; [reflexivity|]); cbn [heap];
    try (split; [exact Hw | reflexivity]).
  split; [now apply extends_store | apply length_insert].
Qed.

Lemma mapValues_assign_extends (keyToFunc : list (string * Parser))
    (read : string -> val) (w0 : world) (r : nat) :
  Forall (fun kp => allocates_only (func (snd kp))) keyToFunc ->
  length (heap w0) <= r ->
  forall w,
    extends w0 w ->
    extends w0 (snd (lodash.mapValues_assign (VRef r) keyToFunc
                       (fun func key => call func (read key)) w))
    /\ length (heap w)
       <= length (heap (snd (lodash.mapValues_assign (VRef r) keyToFunc
                               (fun func key => call func (read key)) w))).
Proof.
  intros Hfields Hr.
  induction Hfields as [|[k p] keyToFunc Hp _ IH]; intros w Hw;
    cbn [lodash.mapValues_assign].
  - split; [exact Hw | reflexivity].
  - unfold bind at 1 3. pose proof (allocates_only_call p Hp (read k) w) as Hk.
    destruct (call p (read k) w) as [[v|e] w1]; cbn [snd] in Hk.
    + assert (Hw1 : extends w0 w1) by (eapply extends_trans; eauto).
      destruct (baseAssignValue_extends w0 w1 r k v Hr Hw1) as (w2 & Hassign & Hw2 & Hlen).
      unfold bind. rewrite Hassign.
      destruct (IH w2 Hw2) as [Hext Hle]. split; [exact Hext|].
      apply extends_length in Hk. lia.
    + cbn [snd]. split; [eapply extends_trans; eauto | now apply extends_length].
Qed.

(** lodash.defaults on the object that lodash.mapValues has made returns
    that object, and writes to it alone. *)
Lemma defaults_extends (w0 w : world) (r : nat) (source : val) :
  length (heap w0) <= r ->
  extends w0 w ->
  exists w', lodash.defaults (VRef r) source w = (Ok (VRef r), w')
             /\ extends w0 w' /\ length (heap w') = length (heap w).
Proof.
  intros Hr Hw. unfold lodash.defaults, bind, deref, store, ret.
  destruct (heap w !! r) as [[items|oprops|oprops|class]|];
    try (eexists; split; [reflexivity|]; split; [exact Hw | reflexivity]).
  destruct (match source with VRef l => heap w !! l | _ => None end)
    as [[items|sprops|sprops|class]|];
    eexists; (split; [reflexivity|]); cbn [heap];
    try (split; [exact Hw | reflexivity]);
    (split; [now apply extends_store | apply length_insert]).
Qed.

(** lodash.mapValues, then lodash.defaults: the object made at the start
    is the one returned, and nothing that was there before is written
    to. *)
Lemma mapValues_defaults_new (keyToFunc : list (string * Parser))
    (read : string -> val) (source : val) (w : world) :
  Forall (fun kp => allocates_only (func (snd kp))) keyToFunc ->
  exists r w',
    (picked <- lodash.mapValues keyToFunc (fun func key => call func (read key)) ;;
     lodash.defaults picked source) w = (r, w')
    /\ extends w w'
    /\ forall v, r = Ok v -> v = VRef (length (heap w)) /\ length (heap w) < length (heap w').
Proof.
  intros Hfields. unfold bind at 1. unfold lodash.mapValues, bind at 1, alloc.
  unfold bind at 1.
  set (w1 := mkWorld (heap w ++ [Obj ∅]) (calls w)).
  assert (Hw1 : extends w w1) by (exists [Obj ∅]; reflexivity).
  assert (Hlen1 : length (heap w1) = S (length (heap w))).
  { subst w1. cbn [heap]. rewrite length_app. cbn. lia. }
  destruct (mapValues_assign_extends keyToFunc read w (length (heap w)) Hfields
              (Nat.le_refl _) w1 Hw1) as [Hext Hle].
  destruct (lodash.mapValues_assign (VRef (length (heap w))) keyToFunc
              (fun func key => call func (read key)) w1) as [[[]|e] w2];
    cbn [snd] in Hext, Hle.
  - unfold ret.
    destruct (defaults_extends w w2 (length (heap w)) source (Nat.le_refl _) Hext)
      as (w3 & Hdefaults & Hw3 & Hlen3).
    exists (Ok (VRef (length (heap w)))), w3. split; [exact Hdefaults|].
    split; [exact Hw3|]. intros v [= <-]. split; [reflexivity | lia].
  - exists (Throw e), w2. split; [reflexivity|]. split; [exact Hext|]. discriminate.
Qed.

Lemma ObjectParser_func_new (keyToFunc : list (string * Parser)) (x : val) (w : world) :
  Forall (fun kp => allocates_only (func (snd kp))) keyToFunc ->
  exists r w',
    ObjectParser_func keyToFunc x w = (r, w')
    /\ extends w w'
    /\ forall v, r = Ok v -> v = VRef (length (heap w)) /\ length (heap w) < length (heap w').
Proof.
  intros Hfields. unfold ObjectParser_func. unfold bind at 1. unfold deref.
  destruct (match x with VRef l => heap w !! l | _ => None end)
    as [[items|props|props|class]|];
    try (exists (Throw TypeMismatch), w; split; [reflexivity|];
         split; [apply extends_refl | discriminate]).
  - exact (mapValues_defaults_new keyToFunc (get props) x w Hfields).
  - exact (mapValues_defaults_new keyToFunc (get_own props) x w Hfields).
Qed.

Lemma allocates_only_ObjectParser_func (keyToFunc : list (string * Parser)) :
  Forall (fun kp => allocates_only (func (snd kp))) keyToFunc ->
  allocates_only (ObjectParser_func keyToFunc).
Proof.
  intros Hfields x w.
  destruct (ObjectParser_func_new keyToFunc x w Hfields) as (r & w' & -> & Hext & _).
  exact Hext.
Qed.

(** The object that an ObjectParser returns is a new one. *)
Lemma returns_new_cell_ObjectParser_func (keyToFunc : list (string * Parser)) :
  Forall (fun kp => allocates_only (func (snd kp))) keyToFunc ->
  returns_new_cell (ObjectParser_func keyToFunc).
Proof.
  intros Hfields x w v w' Hcall.
  destruct (ObjectParser_func_new keyToFunc x w Hfields) as (r & w2 & Heq & Hext & Hnew).
  rewrite Hcall in Heq. injection Heq as <- <-.
  destruct (Hnew v eq_refl) as [-> Hlt].
  destruct (lookup_lt_is_Some_2 (heap w') (length (heap w)) Hlt) as [c Hc].
  exists (length (heap w)), c. split; [reflexivity|]. split; [|exact Hc].
  now apply lookup_ge_None_2.
Qed.

Lemma new_Parser_func (f : val -> M val) (options : Options) (w w1 : world)
    (p : Parser) :
  new_Parser f options w = (Ok p, w1) -> func p = f.
Proof.
  unfold new_Parser, bind.
  destruct (if negb (is_undefined (opt_default options))
            then f (opt_default options) else ret VUndefined) as [[d|e] w2];
    [|discriminate].
  unfold ret. now intros [= <- _].
Qed.

Lemma built_from_functions_SObject (fields : list (string * schema)) :
  built_from_functions (SObject fields)
  = forallb (fun kv => built_from_functions (snd kv)) fields.
Proof.
  induction fields as [|[k v] fields IH]; [reflexivity|].
  cbn [forallb snd]. rewrite <- IH. reflexivity.
Qed.

Lemma parse_allocates_only (s : schema) :
  built_from_functions s = true ->
  forall options w p w1,
    parse s options w = (Ok p, w1) -> allocates_only (func p).
Proof.
  induction s as [this|f|items IH|fields IH|typeof] using schema_nested_ind;
    intros Hs options w p w1 Hp; try discriminate Hs.
  - cbn [parse] in Hp. rewrite (new_Parser_func _ _ _ _ _ Hp).
    apply allocates_only_invoke.
  - destruct items as [|first rest]; [discriminate Hs|].
    apply Forall_cons in IH as [IHfirst _]. cbn [built_from_functions] in Hs.
    rewrite parse_SArray in Hp. unfold bind in Hp.
    destruct (parse first no_options w) as [[p0|e] w2] eqn:E; [|discriminate Hp].
    unfold new_ArrayParser in Hp. rewrite (new_Parser_func _ _ _ _ _ Hp).
    apply allocates_only_ArrayParser_func, allocates_only_call.
    exact (IHfirst Hs no_options w p0 w2 E).
  - rewrite built_from_functions_SObject in Hs.
    rewrite parse_SObject in Hp. unfold bind in Hp.
    destruct (parse_fields fields w) as [[ps|e] w2] eqn:E; [|discriminate Hp].
    unfold new_ObjectParser in Hp. rewrite (new_Parser_func _ _ _ _ _ Hp).
    apply allocates_only_ObjectParser_func.
    clear Hp p w1 options. revert ps w w2 E.
    induction IH as [|[k v] fields Hv _ IHfields]; intros ps w w2 E.
    + cbn in E. unfold ret in E. injection E as <- _. constructor.
    + cbn [forallb snd] in Hs. apply andb_prop in Hs as [Hv' Hrest].
      rewrite parse_fields_cons in E. unfold bind in E.
      destruct (parse v no_options w) as [[p0|e] w3] eqn:E0; [|discriminate E].
      destruct (parse_fields fields w3) as [[ps'|e] w4] eqn:E1; [|discriminate E].
      unfold ret in E. injection E as <- _. constructor.
      * exact (Hv Hv' no_options w p0 w3 E0).
      * exact (IHfields Hrest ps' w3 w4 E1).
Qed.

(** The Parsers of the values of an object literal, each writing to new
    cells only. *)
Lemma parse_fields_allocate_only (fields : list (string * schema)) :
  forallb (fun kv => built_from_functions (snd kv)) fields = true ->
  forall w ps w1,
    parse_fields fields w = (Ok ps, w1) ->
    Forall (fun kp => allocates_only (func (snd kp))) ps.
Proof.
  induction fields as [|[k v] fields IH]; intros Hs w ps w1 E.
  - cbn in E. unfold ret in E. injection E as <- _. constructor.
  - cbn [forallb snd] in Hs. apply andb_prop in Hs as [Hv Hrest].
    rewrite parse_fields_cons in E. unfold bind in E.
    destruct (parse v no_options w) as [[p0|e] w3] eqn:E0; [|discriminate E].
    destruct (parse_fields fields w3) as [[ps'|e] w4] eqn:E1; [|discriminate E].
    unfold ret in E. injection E as <- _. constructor.
    + exact (parse_allocates_only v Hv no_options w p0 w3 E0).
    + exact (IH Hrest w3 ps' w4 E1).
Qed.

(** What the Parser of an array literal or of an object literal returns
    from its transform is a new cell. *)
Lemma parse_returns_new_cell (s : schema) :
  built_from_functions s = true ->
  (forall f, s <> SFunction f) ->
  forall options w p w1,
    parse s options w = (Ok p, w1) -> returns_new_cell (func p).
Proof.
  intros Hs Hliteral options w p w1 Hp.
  destruct s as [this|f|[|first rest]|fields|typeof]; try discriminate Hs.
  - now contradiction (Hliteral f).
  - cbn [built_from_functions] in Hs.
    rewrite parse_SArray in Hp. unfold bind in Hp.
    destruct (parse first no_options w) as [[p0|e] w2] eqn:E; [|discriminate Hp].
    unfold new_ArrayParser in Hp. rewrite (new_Parser_func _ _ _ _ _ Hp).
    apply returns_new_cell_ArrayParser_func, allocates_only_call.
    exact (parse_allocates_only first Hs no_options w p0 w2 E).
  - rewrite built_from_functions_SObject in Hs.
    rewrite parse_SObject in Hp. unfold bind in Hp.
    destruct (parse_fields fields w) as [[ps|e] w2] eqn:E; [|discriminate Hp].
    unfold new_ObjectParser in Hp. rewrite (new_Parser_func _ _ _ _ _ Hp).
    apply returns_new_cell_ObjectParser_func.
    exact (parse_fields_allocate_only fields Hs w ps w2 E).
Qed.

(** X13: a Parser compiled from functions, array literals and object
    literals writes to no array and no object that was there before the
    call: whatever the input, and whether the call returns or throws,
    every cell of the heap holds afterwards what it held before.  What
    the Parser of an array literal or of an object literal returns, when
    that is not undefined, is a cell that was not there before the call:
    it never returns its input, nor any part of it. *)
Theorem compiled_Parser_writes_to_new_cells_only :
  forall (s : schema) (options : Options) (w w1 : world) (p : Parser),
    built_from_functions s = true ->
    parse s options w = (Ok p, w1) ->
    forall (x : val) (w0 : world),
      (forall (l : nat) (c : cell),
          heap w0 !! l = Some c ->
          heap (snd (call p x w0)) !! l = Some c)
      /\ ((forall f, s <> SFunction f) ->
          forall (v : val) (w' : world),
            call p x w0 = (Ok v, w') ->
            v <> VUndefined ->
            exists l' c', v = VRef l' /\ heap w0 !! l' = None /\ heap w' !! l' = Some c').
Proof.
  intros s options w w1 p Hs Hp x w0. split.
  - intros l c Hl. eapply extends_lookup; [|exact Hl].
    apply allocates_only_call. exact (parse_allocates_only s Hs options w p w1 Hp).
  - intros Hliteral v w' Hcall Hv.
    pose proof (parse_returns_new_cell s Hs Hliteral options w p w1 Hp) as Hnew.
    unfold call in Hcall.
    destruct (is_undefined (if is_undefined x then default p else x)).
    + destruct (required p); [discriminate Hcall|].
      unfold ret in Hcall. injection Hcall as <- _. now contradiction Hv.
    + exact (Hnew _ _ _ _ Hcall).
Qed.

Lemma compiled_Parser_writes_to_new_cells_only_witness :
  built_from_functions
    (SObject [("list", SArray [SObject [("x", SFunction increment)]])]) = true
  /\ exists p w',
       parse (SObject [("list", SArray [SObject [("x", SFunction increment)]])])
         no_options empty_world = (Ok p, empty_world)
       /\ call p (VRef 2)
            (mkWorld [ Obj {[ "x" := VNumber 1 ]}; Arr [VRef 0];
                       Obj {[ "list" := VRef 1 ]} ] [])
          = (Ok (VRef 3), w')
       /\ heap w' !! 0 = Some (Obj {[ "x" := VNumber 1 ]})
       /\ exists l' c',
            VRef 3 = VRef l'
            /\ heap (mkWorld [ Obj {[ "x" := VNumber 1 ]}; Arr [VRef 0];
                               Obj {[ "list" := VRef 1 ]} ] []) !! l' = None
            /\ heap w' !! l' = Some c'.
Proof.
  split; [reflexivity|]. eexists. eexists.
  split; [reflexivity|]. split; [reflexivity|].
  destruct (compiled_Parser_writes_to_new_cells_only
              (SObject [("list", SArray [SObject [("x", SFunction increment)]])])
              no_options empty_world empty_world _ eq_refl eq_refl (VRef 2)
              (mkWorld [ Obj {[ "x" := VNumber 1 ]}; Arr [VRef 0];
                         Obj {[ "list" := VRef 1 ]} ] [])) as [Hkept Hnew].
  split.
  - apply (Hkept 0 (Obj {[ "x" := VNumber 1 ]})). reflexivity.
  - apply (Hnew ltac:(discriminate) (VRef 3) _ eq_refl). discriminate.
Defined.

(** ** Arrays and objects, whatever their entries and fields *)

Lemma mapM_length {A B : Type} (f : A -> M B) (items : list A) :
  forall w out w', mapM f items w = (Ok out, w') -> length out = length items.
Proof.
  induction items as [|a items IH]; intros w out w'; cbn [mapM].
  - unfold ret. now intros [= <- _].
  - unfold bind. destruct (f a w) as [[b|e] w1]; [|discriminate].
    destruct (mapM f items w1) as [[bs|e] w2] eqn:E; [|discriminate].
    unfold ret. intros [= <- _]. cbn. now rewrite (IH w1 bs w2 E).
Qed.

(** X14: whatever the descriptor of the entries, the Parser of an array
    literal, when it returns on an array, returns an array of the same
    length. *)
Theorem array_parser_keeps_length :
  forall (first : schema) (rest : list schema) (options : Options) (w w1 : world)
         (p : Parser) (l : nat) (items : list val) (w0 w' : world) (v : val),
    parse (SArray (first :: rest)) options w = (Ok p, w1) ->
    heap w0 !! l = Some (Arr items) ->
    call p (VRef l) w0 = (Ok v, w') ->
    exists l' out, v = VRef l' /\ heap w' !! l' = Some (Arr out)
                   /\ length out = length items.
Proof.
  intros first rest options w w1 p l items w0 w' v Hp Hl Hcall.
  rewrite parse_SArray in Hp. unfold bind in Hp.
  destruct (parse first no_options w) as [[p0|e] w2]; [|discriminate Hp].
  unfold new_ArrayParser in Hp. apply new_Parser_func in Hp.
  rewrite call_present in Hcall by discriminate. rewrite Hp in Hcall.
  unfold ArrayParser_func, bind, deref in Hcall. rewrite Hl in Hcall.
  destruct (mapM (call p0) items w0) as [[out|e] w3] eqn:E; [|discriminate Hcall].
  unfold alloc in Hcall. injection Hcall as <- <-.
  exists (length (heap w3)), out. split; [reflexivity|]. split.
  - cbn [heap]. now apply list_lookup_middle.
  - exact (mapM_length _ _ _ _ _ E).
Qed.

Lemma array_parser_keeps_length_witness :
  exists p,
    parse (SArray [SObject [("x", SFunction increment)]]) no_options empty_world
      = (Ok p, empty_world)
    /\ heap (mkWorld [ Obj {[ "x" := VNumber 1 ]}; Arr [VRef 0; VUndefined] ] []) !! 1
       = Some (Arr [VRef 0; VUndefined])
    /\ call p (VRef 1) (mkWorld [ Obj {[ "x" := VNumber 1 ]}; Arr [VRef 0; VUndefined] ] [])
       = (Ok (VRef 3),
          mkWorld [ Obj {[ "x" := VNumber 1 ]}; Arr [VRef 0; VUndefined];
                    Obj {[ "x" := VNumber 2 ]}; Arr [VRef 2; VUndefined] ]
                  [("increment", VNumber 1)])
    /\ exists l' out,
         VRef 3 = VRef l'
         /\ heap (mkWorld [ Obj {[ "x" := VNumber 1 ]}; Arr [VRef 0; VUndefined];
                            Obj {[ "x" := VNumber 2 ]}; Arr [VRef 2; VUndefined] ]
                          [("increment", VNumber 1)]) !! l'
            = Some (Arr out)
         /\ length out = length [VRef 0; VUndefined].
Proof.
  eexists. split; [reflexivity|]. split; [reflexivity|]. split; [reflexivity|].
  apply (array_parser_keeps_length (SObject [("x", SFunction increment)]) []
           no_options empty_world empty_world _ 1 [VRef 0; VUndefined]
           (mkWorld [ Obj {[ "x" := VNumber 1 ]}; Arr [VRef 0; VUndefined] ] [])
           (mkWorld [ Obj {[ "x" := VNumber 1 ]}; Arr [VRef 0; VUndefined];
                      Obj {[ "x" := VNumber 2 ]}; Arr [VRef 2; VUndefined] ]
                    [("increment", VNumber 1)])
           (VRef 3) ltac:(reflexivity) ltac:(reflexivity) ltac:(reflexivity)).
Defined.



(** ** Object literals of several functions *)

Lemma parse_fields_functions (fields : list (string * jsfun)) (w : world) :
  parse_fields (function_fields fields) w = (Ok (leaf_Parsers fields), w).
Proof.
  induction fields as [|[k f] fields IH]; [reflexivity|].
  cbn [function_fields leaf_Parsers map fst snd].
  rewrite parse_fields_cons. unfold bind. cbn [parse].
  change (new_Parser (invoke f) no_options w) with (Ok (leaf_Parser f), w).
  cbv iota. fold (function_fields fields). rewrite IH. reflexivity.
Qed.

(** Every field returns: lodash.mapValues has assigned their values, in
    the order of the keys. *)
Lemma mapValues_assign_leaf (read : string -> val) (fields : list (string * jsfun))
    (values : list val) :
  fields_parsed read fields values ->
  forall cells picked log,
    lodash.mapValues_assign (VRef (length cells)) (leaf_Parsers fields)
      (fun func key => call func (read key)) (mkWorld (cells ++ [Obj picked]) log)
    = (Ok tt,
       mkWorld (cells ++ [Obj (assigned picked (zip (map fst fields) values))])
               (log ++ field_calls read fields)).
Proof.
  induction 1 as [|[k f] v fields values Hv _ IH]; intros cells picked log.
  - cbn. unfold ret. now rewrite app_nil_r.
  - cbn [leaf_Parsers map fst snd lodash.mapValues_assign] in *. unfold bind at 1.
    rewrite (call_leaf_parsed f (read k) v _ Hv). cbn [heap calls].
    unfold bind at 1. rewrite baseAssignValue_picked.
    fold (leaf_Parsers fields). rewrite IH.
    unfold field_calls. cbn [flat_map fst snd]. now rewrite app_assoc.
Qed.

(** The first field that throws ends it: the keys before it have been
    assigned, the keys after it are not looked at. *)
Lemma mapValues_assign_leaf_Throw (read : string -> val)
    (pre : list (string * jsfun)) (values : list val) (k : string) (f : jsfun)
    (e : error) (post : list (string * jsfun)) :
  fields_parsed read pre values ->
  read k <> VUndefined ->
  fbody f (read k) = Throw e ->
  forall cells picked log,
    lodash.mapValues_assign (VRef (length cells)) (leaf_Parsers (pre ++ (k, f) :: post))
      (fun func key => call func (read key)) (mkWorld (cells ++ [Obj picked]) log)
    = (Throw e,
       mkWorld (cells ++ [Obj (assigned picked (zip (map fst pre) values))])
               (log ++ field_calls read (pre ++ [(k, f)]))).
Proof.
  intros Hpre Hk He.
  induction Hpre as [|[k0 f0] v0 pre values Hv _ IH]; intros cells picked log.
  - cbn [app leaf_Parsers map fst snd lodash.mapValues_assign field_calls flat_map
         zip zip_with assigned foldl].
    unfold bind at 1. rewrite call_leaf, (is_undefined_false _ Hk).
    unfold invoke, invocations. cbn [List.filter heap calls].
    rewrite He, (is_undefined_false _ Hk). cbn [negb map]. now rewrite app_nil_r.
  - cbn [app leaf_Parsers map fst snd lodash.mapValues_assign] in *. unfold bind at 1.
    rewrite (call_leaf_parsed f0 (read k0) v0 _ Hv). cbn [heap calls].
    unfold bind at 1. rewrite baseAssignValue_picked.
    fold (leaf_Parsers (pre ++ (k, f) :: post)). rewrite IH.
    unfold field_calls. cbn [flat_map fst snd]. now rewrite app_assoc.
Qed.

(** A key that is not assigned keeps what it held. *)
Lemma lookup_assigned_other (entries : list (string * val)) (k : string) :
  k ∉ map fst entries ->
  forall picked, assigned picked entries !! k = picked !! k.
Proof.
  induction entries as [|[k0 v0] entries IH]; intros Hk picked; [reflexivity|].
  cbn [map fst] in Hk. apply not_elem_of_cons in Hk as [Hne Hk].
  unfold assigned. cbn [foldl fst snd]. fold (assigned (<[k0 := v0]> picked) entries).
  rewrite (IH Hk). now apply lookup_insert_ne.
Qed.

Lemma lookup_picked_props_other (fields : list (string * jsfun)) (values : list val)
    (k : string) :
  length fields = length values ->
  k ∉ map fst fields ->
  picked_props fields values !! k = None.
Proof.
  intros Hlen Hk. unfold picked_props. rewrite lookup_assigned_other.
  - apply lookup_empty.
  - rewrite fst_zip; [exact Hk|]. rewrite length_map. lia.
Qed.

Lemma parse_function_fields (fields : list (string * jsfun)) (w : world) :
  parse (SObject (function_fields fields)) no_options w
  = (Ok (mkParser (ObjectParser_func (leaf_Parsers fields)) false VUndefined), w).
Proof.
  rewrite parse_SObject. unfold bind. rewrite parse_fields_functions. reflexivity.
Qed.

(** X16: the Parser of an object literal {k1: f1, ..., kn: fn} of
    functions, on a plain object.  The functions are called in the order
    of the keys, each on what the input reads for its key, but for the
    keys that read undefined.  When all return, the result is a new
    object: a key of the schema holds what its function returned, or, when
    that is undefined (or the function was not called), what the input
    holds for the key, undefined if nothing; every other property of the
    input is there with the input's value, but for a property named
    __proto__, which is there only if the schema has that key.  The input
    is not written to. *)
Theorem object_parser_of_functions :
  forall (fields : list (string * jsfun)) (values : list val) (l : nat) (c : cell)
         (props : gmap string val) (read : string -> val) (w w0 : world),
    heap w0 !! l = Some c ->
    plain c = Some (props, read) ->
    fields_parsed read fields values ->
    exists p out,
      parse (SObject (function_fields fields)) no_options w = (Ok p, w)
      /\ call p (VRef l) w0
         = (Ok (VRef (length (heap w0))),
            mkWorld (heap w0 ++ [Obj out]) (calls w0 ++ field_calls read fields))
      /\ (forall k v, picked_props fields values !! k = Some v -> v <> VUndefined ->
                      out !! k = Some v)
      /\ (forall k, picked_props fields values !! k = Some VUndefined ->
                    out !! k = Some (match props !! k with
                                     | Some v => v
                                     | None => VUndefined
                                     end))
      /\ (forall k, k ∉ map fst fields -> k <> "__proto__" -> out !! k = props !! k)
      /\ ("__proto__" ∉ map fst fields -> out !! "__proto__" = None)
      /\ (heap w0 ++ [Obj out]) !! l = Some c.
Proof.
  intros fields values l c props read w w0 Hl Hc Hparsed.
  assert (Hlen : length fields = length values) by exact (Forall2_length _ _ _ Hparsed).
  exists (mkParser (ObjectParser_func (leaf_Parsers fields)) false VUndefined),
         (lodash.defaults_props (picked_props fields values) props).
  split; [apply parse_function_fields|]. split; [|split; [|split; [|split; [|split]]]].
  - rewrite call_present by discriminate. cbn [func].
    apply (ObjectParser_func_returns (leaf_Parsers fields) l c props
             (picked_props fields values) read w0 _ Hl Hc).
    exact (mapValues_assign_leaf read fields values Hparsed (heap w0) ∅ (calls w0)).
  - intros k v Hk Hv. rewrite lookup_defaults_props, Hk, (is_undefined_false v Hv).
    now destruct (props !! k).
  - intros k Hk. rewrite lookup_defaults_props, Hk. now destruct (props !! k).
  - intros k Hk Hproto. rewrite lookup_defaults_props.
    rewrite (lookup_picked_props_other fields values k Hlen Hk).
    destruct (String.eqb_spec k "__proto__") as [->|_]; [now contradiction Hproto|].
    reflexivity.
  - intros Hk. rewrite lookup_defaults_props.
    now rewrite (lookup_picked_props_other fields values "__proto__" Hlen Hk).
  - rewrite lookup_app_l; [assumption | eapply lookup_lt_Some; eauto].
Qed.

Lemma object_parser_of_functions_witness :
  heap (mkWorld [Obj {[ "a" := VNumber 1; "b" := VNumber 2 ]}] []) !! 0
    = Some (Obj {[ "a" := VNumber 1; "b" := VNumber 2 ]})
  /\ plain (Obj {[ "a" := VNumber 1; "b" := VNumber 2 ]})
     = Some ({[ "a" := VNumber 1; "b" := VNumber 2 ]},
             get {[ "a" := VNumber 1; "b" := VNumber 2 ]})
  /\ fields_parsed (get {[ "a" := VNumber 1; "b" := VNumber 2 ]})
       [("a", increment); ("c", exclaim)] [VNumber 2; VUndefined]
  /\ exists p out,
       parse (SObject [("a", SFunction increment); ("c", SFunction exclaim)])
         no_options empty_world = (Ok p, empty_world)
       /\ call p (VRef 0) (mkWorld [Obj {[ "a" := VNumber 1; "b" := VNumber 2 ]}] [])
          = (Ok (VRef 1),
             mkWorld [Obj {[ "a" := VNumber 1; "b" := VNumber 2 ]}; Obj out]
                     [("increment", VNumber 1)])
       /\ out !! "a" = Some (VNumber 2)
       /\ out !! "c" = Some VUndefined
       /\ out !! "b" = Some (VNumber 2)
       /\ out !! "__proto__" = None.
Proof.
  assert (Hparsed : fields_parsed (get {[ "a" := VNumber 1; "b" := VNumber 2 ]})
                      [("a", increment); ("c", exclaim)] [VNumber 2; VUndefined])
    by (repeat constructor).
  assert (Hother : forall k, k <> "a" -> k <> "c" -> k ∉ map fst [("a", increment); ("c", exclaim)]).
  { intros k Ha Hc Hin. apply list_elem_of_In in Hin. cbn in Hin.
    destruct Hin as [H|[H|[]]]; congruence. }
  split; [reflexivity|]. split; [reflexivity|]. split; [exact Hparsed|].
  destruct (object_parser_of_functions [("a", increment); ("c", exclaim)]
              [VNumber 2; VUndefined] 0 (Obj {[ "a" := VNumber 1; "b" := VNumber 2 ]})
              {[ "a" := VNumber 1; "b" := VNumber 2 ]}
              (get {[ "a" := VNumber 1; "b" := VNumber 2 ]})
              empty_world (mkWorld [Obj {[ "a" := VNumber 1; "b" := VNumber 2 ]}] [])
              ltac:(reflexivity) ltac:(reflexivity) Hparsed)
    as (p & out & Hp & Hcall & Hdefined & Hundefined & Hkept & Hproto & _).
  exists p, out. split; [exact Hp|]. split; [exact Hcall|].
  split; [|split; [|split]].
  - apply Hdefined; [reflexivity | discriminate].
  - apply (Hundefined "c"). reflexivity.
  - rewrite (Hkept "b"); [reflexivity | apply Hother; discriminate | discriminate].
  - apply Hproto. apply Hother; discriminate.
Defined.

(** X17: the Parser of an object literal of functions stops at the first
    function that throws, in the order of the keys: the call ends with
    what it threw and the functions of the keys after it are not called.
    The object that lodash.mapValues was filling is left behind, holding
    what the keys before have been assigned; nothing refers to it, and
    the input is as it was. *)
Theorem object_parser_fails_fast :
  forall (pre : list (string * jsfun)) (values : list val) (k : string) (f : jsfun)
         (e : error) (post : list (string * jsfun)) (l : nat) (c : cell)
         (props : gmap string val) (read : string -> val) (w w0 : world),
    heap w0 !! l = Some c ->
    plain c = Some (props, read) ->
    fields_parsed read pre values ->
    read k <> VUndefined ->
    fbody f (read k) = Throw e ->
    exists p,
      parse (SObject (function_fields (pre ++ (k, f) :: post))) no_options w = (Ok p, w)
      /\ call p (VRef l) w0
         = (Throw e,
            mkWorld (heap w0 ++ [Obj (picked_props pre values)])
                    (calls w0 ++ field_calls read (pre ++ [(k, f)])))
      /\ (heap w0 ++ [Obj (picked_props pre values)]) !! l = Some c.
Proof.
  intros pre values k f e post l c props read w w0 Hl Hc Hpre Hk He.
  eexists. split; [apply parse_function_fields|]. split.
  - rewrite call_present by discriminate. cbn [func].
    apply (ObjectParser_func_throws _ l c props read e w0 _ Hl Hc).
    exact (mapValues_assign_leaf_Throw read pre values k f e post Hpre Hk He
             (heap w0) ∅ (calls w0)).
  - rewrite lookup_app_l; [assumption | eapply lookup_lt_Some; eauto].
Qed.

Lemma object_parser_fails_fast_witness :
  heap (mkWorld [Obj {[ "a" := VNumber 1; "b" := VNumber 2; "c" := VNumber 3 ]}] []) !! 0
    = Some (Obj {[ "a" := VNumber 1; "b" := VNumber 2; "c" := VNumber 3 ]})
  /\ plain (Obj {[ "a" := VNumber 1; "b" := VNumber 2; "c" := VNumber 3 ]})
     = Some ({[ "a" := VNumber 1; "b" := VNumber 2; "c" := VNumber 3 ]},
             get {[ "a" := VNumber 1; "b" := VNumber 2; "c" := VNumber 3 ]})
  /\ fields_parsed (get {[ "a" := VNumber 1; "b" := VNumber 2; "c" := VNumber 3 ]})
       [("a", increment)] [VNumber 2]
  /\ get {[ "a" := VNumber 1; "b" := VNumber 2; "c" := VNumber 3 ]} "b" <> VUndefined
  /\ fbody exclaim (get {[ "a" := VNumber 1; "b" := VNumber 2; "c" := VNumber 3 ]} "b")
     = Throw (LeafError "not a string")
  /\ exists p,
       parse (SObject [("a", SFunction increment); ("b", SFunction exclaim);
                       ("c", SFunction increment)]) no_options empty_world
         = (Ok p, empty_world)
       /\ call p (VRef 0)
            (mkWorld [Obj {[ "a" := VNumber 1; "b" := VNumber 2; "c" := VNumber 3 ]}] [])
          = (Throw (LeafError "not a string"),
             mkWorld [Obj {[ "a" := VNumber 1; "b" := VNumber 2; "c" := VNumber 3 ]};
                      Obj {[ "a" := VNumber 2 ]}]
                     [("increment", VNumber 1); ("exclaim", VNumber 2)]).
Proof.
  assert (Hparsed : fields_parsed
                      (get {[ "a" := VNumber 1; "b" := VNumber 2; "c" := VNumber 3 ]})
                      [("a", increment)] [VNumber 2]) by (repeat constructor).
  split; [reflexivity|]. split; [reflexivity|]. split; [exact Hparsed|].
  split; [discriminate|]. split; [reflexivity|].
  destruct (object_parser_fails_fast [("a", increment)] [VNumber 2] "b" exclaim
              (LeafError "not a string") [("c", increment)] 0
              (Obj {[ "a" := VNumber 1; "b" := VNumber 2; "c" := VNumber 3 ]})
              {[ "a" := VNumber 1; "b" := VNumber 2; "c" := VNumber 3 ]}
              (get {[ "a" := VNumber 1; "b" := VNumber 2; "c" := VNumber 3 ]})
              empty_world
              (mkWorld [Obj {[ "a" := VNumber 1; "b" := VNumber 2; "c" := VNumber 3 ]}] [])
              ltac:(reflexivity) ltac:(reflexivity) Hparsed ltac:(discriminate)
              ltac:(reflexivity)) as (p & Hp & Hcall & _).
  exists p. split; [exact Hp | exact Hcall].
Defined.

(** ** Required fields *)

(** X18: an ObjectParser constructed over a required Parser for the key
    a throws "value is required" on a plain object that reads undefined
    for a: no function is called, and the input is as it was.  Its or(g)
    catches the throw and ends as g does on the input.  The object that
    lodash.mapValues had made, still empty, is left behind. *)
Theorem required_field_of_ObjectParser :
  forall (a : string) (f g : jsfun) (l : nat) (c : cell) (props : gmap string val)
         (read : string -> val) (w w0 : world),
    heap w0 !! l = Some c ->
    plain c = Some (props, read) ->
    read a = VUndefined ->
    exists p q,
      new_ObjectParser [(a, required_Parser f)] no_options w = (Ok p, w)
      /\ call p (VRef l) w0
         = (Throw MissingRequiredValue, mkWorld (heap w0 ++ [Obj ∅]) (calls w0))
      /\ Parser_or p g w = (Ok q, w)
      /\ call q (VRef l) w0
         = (fbody g (VRef l),
            mkWorld (heap w0 ++ [Obj ∅]) (calls w0 ++ [(fname g, VRef l)]))
      /\ (heap w0 ++ [Obj ∅]) !! l = Some c.
Proof.
  intros a f g l c props read w w0 Hl Hc Hread.
  exists (mkParser (ObjectParser_func [(a, required_Parser f)]) false VUndefined).
  eexists. split; [reflexivity|].
  assert (Hp : call (mkParser (ObjectParser_func [(a, required_Parser f)]) false VUndefined)
                 (VRef l) w0
               = (Throw MissingRequiredValue, mkWorld (heap w0 ++ [Obj ∅]) (calls w0))).
  { rewrite call_present by discriminate. cbn [func].
    apply (ObjectParser_func_throws _ l c props read _ w0 _ Hl Hc).
    cbn [lodash.mapValues_assign]. unfold bind at 1. now rewrite Hread. }
  split; [exact Hp|]. split; [reflexivity|]. split.
  - rewrite call_present by discriminate. cbn [func]. unfold try_catch.
    now rewrite Hp.
  - rewrite lookup_app_l; [assumption | eapply lookup_lt_Some; eauto].
Qed.

Lemma required_field_of_ObjectParser_witness :
  heap (mkWorld [Obj {[ "b" := VNumber 2 ]}] []) !! 0 = Some (Obj {[ "b" := VNumber 2 ]})
  /\ plain (Obj {[ "b" := VNumber 2 ]})
     = Some ({[ "b" := VNumber 2 ]}, get {[ "b" := VNumber 2 ]})
  /\ get {[ "b" := VNumber 2 ]} "a" = VUndefined
  /\ exists p q,
       new_ObjectParser [("a", required_Parser increment)] no_options empty_world
         = (Ok p, empty_world)
       /\ call p (VRef 0) (mkWorld [Obj {[ "b" := VNumber 2 ]}] [])
          = (Throw MissingRequiredValue, mkWorld [Obj {[ "b" := VNumber 2 ]}; Obj ∅] [])
       /\ Parser_or p (constant "g" VNull) empty_world = (Ok q, empty_world)
       /\ call q (VRef 0) (mkWorld [Obj {[ "b" := VNumber 2 ]}] [])
          = (Ok VNull, mkWorld [Obj {[ "b" := VNumber 2 ]}; Obj ∅] [("g", VRef 0)]).
Proof.
  split; [reflexivity|]. split; [reflexivity|]. split; [reflexivity|].
  destruct (required_field_of_ObjectParser "a" increment (constant "g" VNull) 0
              (Obj {[ "b" := VNumber 2 ]}) {[ "b" := VNumber 2 ]}
              (get {[ "b" := VNumber 2 ]}) empty_world
              (mkWorld [Obj {[ "b" := VNumber 2 ]}] [])
              ltac:(reflexivity) ltac:(reflexivity) ltac:(reflexivity))
    as (p & q & Hp & Hcall & Hq & Hor & _).
  exists p, q. split; [exact Hp|]. split; [exact Hcall|]. split; [exact Hq | exact Hor].
Defined.

(** X19: parse wraps a Parser that is given as the value of a key of an
    object literal in a new Parser with no options, so that the required
    flag and the default of the given Parser do not apply to the key: on a
    plain object that has no own property a and reads undefined for a, the
    result is a new object with a holding undefined and, besides, the
    input's properties, but for one named __proto__; this whatever the
    given Parser is, and the given Parser is not run. *)
Theorem built_Parser_as_field_is_optional :
  forall (a : string) (this : Parser) (l : nat) (c : cell) (props : gmap string val)
         (read : string -> val) (w w0 : world),
    heap w0 !! l = Some c ->
    plain c = Some (props, read) ->
    props !! a = None ->
    read a = VUndefined ->
    exists p, parse (SObject [(a, SParser this)]) no_options w = (Ok p, w)
      /\ call p (VRef l) w0
         = (Ok (VRef (length (heap w0))),
            mkWorld (heap w0 ++ [Obj (<[a := VUndefined]> (delete "__proto__" props))])
                    (calls w0)).
Proof.
  intros a this l c props read w w0 Hl Hc Ha Hread. eexists. split; [reflexivity|].
  rewrite call_present by discriminate. cbn [func].
  rewrite (ObjectParser_func_one_field a _ l c props read VUndefined w0 (calls w0) Hl Hc)
    by (now rewrite Hread).
  now rewrite (defaults_props_omitted a props Ha).
Qed.

Lemma built_Parser_as_field_is_optional_witness :
  heap (mkWorld [Obj {[ "b" := VNumber 2 ]}] []) !! 0 = Some (Obj {[ "b" := VNumber 2 ]})
  /\ plain (Obj {[ "b" := VNumber 2 ]})
     = Some ({[ "b" := VNumber 2 ]}, get {[ "b" := VNumber 2 ]})
  /\ ({[ "b" := VNumber 2 ]} : gmap string val) !! "a" = None
  /\ get {[ "b" := VNumber 2 ]} "a" = VUndefined
  /\ call (required_Parser increment) VUndefined empty_world
     = (Throw MissingRequiredValue, empty_world)
  /\ exists p,
       parse (SObject [("a", SParser (required_Parser increment))]) no_options
         empty_world = (Ok p, empty_world)
       /\ call p (VRef 0) (mkWorld [Obj {[ "b" := VNumber 2 ]}] [])
          = (Ok (VRef 1),
             mkWorld [Obj {[ "b" := VNumber 2 ]};
                      Obj (<["a" := VUndefined]> {[ "b" := VNumber 2 ]})] []).
Proof.
  split; [reflexivity|]. split; [reflexivity|]. split; [reflexivity|].
  split; [reflexivity|]. split; [reflexivity|].
  apply (built_Parser_as_field_is_optional "a" (required_Parser increment) 0
           (Obj {[ "b" := VNumber 2 ]}) {[ "b" := VNumber 2 ]}
           (get {[ "b" := VNumber 2 ]}) empty_world
           (mkWorld [Obj {[ "b" := VNumber 2 ]}] [])
           ltac:(reflexivity) ltac:(reflexivity) ltac:(reflexivity) ltac:(reflexivity)).
Defined.

(** ** The properties of type.js, at the examples of its documentation *)

Lemma Hex_returns_canonical_witness :
  Hex no_conversion no_conversion no_conversion (VString "0XABC") = Ok "0x0abc"
  /\ isHex no_conversion (VString "0x0abc") = true
  /\ Hex no_conversion no_conversion no_conversion (VString "0x0abc") = Ok "0x0abc".
Proof.
  split; [reflexivity|].
  apply (Hex_returns_canonical no_conversion no_conversion no_conversion
           (VString "0XABC") "0x0abc"). reflexivity.
Defined.

Lemma toBuffer_of_string_witness :
  isHex no_conversion (VString "0x0102") = true
  /\ (exists bytes, toBuffer no_conversion (VString "0x0102") = Ok bytes
                    /\ String.length "0x0102" = 2 + 2 * length bytes)
  /\ isHex no_conversion (VString "0x1") = false
  /\ toBuffer no_conversion (VString "0x1") = Throw (NotHexString "0x1").
Proof.
  split; [reflexivity|]. split.
  - apply (proj1 (toBuffer_of_string no_conversion "0x0102")). reflexivity.
  - split; [reflexivity|].
    apply (proj2 (toBuffer_of_string no_conversion "0x1")). reflexivity.
Defined.

(** > Hex.concat('0x01', '0x02', '0x0304')  "0x01020304" *)
Lemma Hex_concat_of_canonical_witness :
  Forall (fun h => isHex no_conversion (VString h) = true) ["0x01"; "0x02"; "0x0304"]
  /\ Hex_concat no_conversion no_conversion no_conversion
       [VString "0x01"; VString "0x02"; VString "0x0304"]
     = Returned "0x01020304"
  /\ isHex no_conversion (VString "0x01020304") = true
  /\ toBuffer no_conversion (VString "0x01020304")
     = Ok [Byte.x01; Byte.x02; Byte.x03; Byte.x04].
Proof.
  assert (Hhs : Forall (fun h => isHex no_conversion (VString h) = true)
                  ["0x01"; "0x02"; "0x0304"]) by (repeat constructor).
  destruct (Hex_concat_of_canonical no_conversion no_conversion no_conversion
              ["0x01"; "0x02"; "0x0304"] Hhs) as (Hconcat & Hcanon & Hbuffer).
  split; [exact Hhs|]. split; [exact Hconcat|]. split; [exact Hcanon|].
  apply (Hbuffer [[Byte.x01]; [Byte.x02]; [Byte.x03; Byte.x04]]).
  repeat constructor.
Defined.

Lemma Hex_concat_first_rejected_witness :
  Forall (fun v => isHex no_conversion v = true) [VString "0x01"]
  /\ isHex no_conversion (VString "0x2") = false
  /\ Hex_concat no_conversion no_conversion no_conversion
       [VString "0x01"; VString "0x2"; VString "zz"]
     = Thrown (NotHexAt 1 (VString "0x2")).
Proof.
  assert (Hpre : Forall (fun v => isHex no_conversion v = true) [VString "0x01"])
    by (repeat constructor).
  split; [exact Hpre|]. split; [reflexivity|].
  apply (Hex_concat_first_rejected no_conversion no_conversion no_conversion
           [VString "0x01"] (VString "0x2") [VString "zz"] Hpre). reflexivity.
Defined.

(** > Address('0123456789012345678901234567890123456789') *)
Lemma Address_is_twenty_bytes_witness :
  Address no_conversion no_conversion no_conversion
    (VString "0123456789012345678901234567890123456789")
  = Returned "0x0123456789012345678901234567890123456789"
  /\ isHex no_conversion (VString "0x0123456789012345678901234567890123456789") = true
  /\ (exists bytes,
        toBuffer no_conversion (VString "0x0123456789012345678901234567890123456789")
          = Ok bytes /\ length bytes = 20)
  /\ Address no_conversion no_conversion no_conversion
       (VString "0x0123456789012345678901234567890123456789")
     = Returned "0x0123456789012345678901234567890123456789"
  /\ Address no_conversion no_conversion no_conversion (VBuffer [Byte.x01; Byte.x02])
     = Thrown (DoNotMatch "Address" (VBuffer [Byte.x01; Byte.x02])).
Proof.
  destruct (Address_is_twenty_bytes no_conversion no_conversion no_conversion)
    as [Hreturned Hbuffer].
  split; [reflexivity|].
  destruct (Hreturned (VString "0123456789012345678901234567890123456789")
              "0x0123456789012345678901234567890123456789" ltac:(reflexivity))
    as (Hcanon & Hbytes & Hagain).
  split; [exact Hcanon|]. split; [exact Hbytes|]. split; [exact Hagain|].
  exact (Hbuffer [Byte.x01; Byte.x02]).
Defined.

(** > PrivateKey('0123456789012345678901234567890123456789012345678901234567890123') *)
Lemma hashes_are_thirty_two_bytes_witness :
  In (PrivateKey no_conversion no_conversion no_conversion)
     [ PrivateKey no_conversion no_conversion no_conversion;
       BlockHash no_conversion no_conversion no_conversion;
       TxHash no_conversion no_conversion no_conversion ]
  /\ PrivateKey no_conversion no_conversion no_conversion
       (VString "0123456789012345678901234567890123456789012345678901234567890123")
     = Returned "0x0123456789012345678901234567890123456789012345678901234567890123"
  /\ (exists bytes,
        toBuffer no_conversion
          (VString "0x0123456789012345678901234567890123456789012345678901234567890123")
          = Ok bytes /\ length bytes = 32)
  /\ PrivateKey no_conversion no_conversion no_conversion
       (VString "0x0123456789012345678901234567890123456789012345678901234567890123")
     = Returned "0x0123456789012345678901234567890123456789012345678901234567890123".
Proof.
  split; [now left|]. split; [reflexivity|].
  destruct (hashes_are_thirty_two_bytes no_conversion no_conversion no_conversion
              (PrivateKey no_conversion no_conversion no_conversion)
              ltac:(now left)
              (VString "0123456789012345678901234567890123456789012345678901234567890123")
              "0x0123456789012345678901234567890123456789012345678901234567890123"
              ltac:(reflexivity)) as (_ & Hbytes & Hagain).
  split; [exact Hbytes | exact Hagain].
Defined.

(** > EpochNumber('LATEST_STATE')  "latest_state" *)
Lemma EpochNumber_names_and_numbers_witness :
  In (toLowerCase "LATEST_STATE") [EARLIEST; LATEST_STATE; LATEST_MINED]
  /\ EpochNumber no_conversion no_conversion no_conversion no_conversion
       (VString "LATEST_STATE") = Ok "latest_state"
  /\ EpochNumber (fun _ => "64") no_conversion no_conversion no_conversion
       (VNumber 100) = Ok "0x64"
  /\ (In "0x64" [EARLIEST; LATEST_STATE; LATEST_MINED]
      \/ isHex no_conversion (VString "0x64") = true).
Proof.
  destruct (EpochNumber_names_and_numbers no_conversion no_conversion no_conversion
              no_conversion) as (Hname & _).
  destruct (EpochNumber_names_and_numbers (fun _ => "64") no_conversion no_conversion
              no_conversion) as (_ & Hhex & Hnumber).
  split; [right; left; reflexivity|]. split.
  - apply (Hname "LATEST_STATE"). right; left; reflexivity.
  - split.
    + rewrite (Hnumber 100%float). reflexivity.
    + apply (Hhex (VNumber 100)). rewrite (Hnumber 100%float). reflexivity.
Defined.
